(** * Rig binding for MMD armatures: constraint authoring and bone catalog

    A shallow embedding of [mmd_uuunyaa_tools/editors/armatures/__init__.py]:
    the bone catalog ([MMDBoneInfo]), the constraint authoring layer
    ([PoseUtil]), the geometry helpers of [ArmatureObjectABC] and the
    property accessors and name assignment of [RichArmatureObjectABC].

    Python strings are byte strings holding the UTF-8 encoding of the
    source text.  Host objects (pose bones, constraints, drivers) are
    records; a collection owned by the host is a list in stack order, a
    Python [dict] whose iteration order matters is an association list in
    insertion order, and a keyed collection is a [gmap].  What the host
    does with a value assigned to one of its properties (store it, clamp
    it, refuse it, make a name unique) is a parameter, the class [Host];
    the worked instances run on [example_host]. *)

From Stdlib Require Import Ascii String QArith Reals Lra.
From stdpp Require Import gmap strings list fin_maps.

Close Scope Q_scope.
Close Scope R_scope.

Local Open Scope string_scope.
Local Open Scope list_scope.

(** ** Python exceptions and fallible results *)

Inductive PyError : Set :=
  | KeyError (key : string)
  | ValueError (message : string)
  | TypeError (message : string)
  | AttributeError (message : string)
  | OverflowError (message : string).

Inductive result (A : Type) : Type :=
  | Ok (a : A)
  | Raise (e : PyError).

Arguments Ok {A} a.
Arguments Raise {A} e.

#[global] Instance result_ret : MRet result := fun A a => Ok a.

#[global] Instance result_bind : MBind result := fun A B k r =>
  match r with
  | Ok a => k a
  | Raise e => Raise e
  end.

Definition raises {A : Type} (r : result A) : Prop :=
  match r with
  | Ok _ => False
  | Raise _ => True
  end.

(** ** Enumerations *)

Inductive MMDBoneType : Set :=
  | STANDARD | PARENT | UPPER_ARM_TWIST | WRIST_TWIST | UPPER_BODY_1
  | UPPER_BODY_2 | GROOVE | TOLSO | LEG_IK_PARENT | CONTROL | TOE_EX
  | HAND_ACCESSORIES | SHOULDER_CANCEL | THUMB_0 | OTHERS.

Definition MMDBoneType_value (t : MMDBoneType) : string :=
  match t with
  | STANDARD => "標準"
  | PARENT => "全ての親"
  | UPPER_ARM_TWIST => "腕捩"
  | WRIST_TWIST => "手捩"
  | UPPER_BODY_1 => "上半身1"
  | UPPER_BODY_2 => "上半身２"
  | GROOVE => "グルーブ"
  | TOLSO => "腰"
  | LEG_IK_PARENT => "足IK親"
  | CONTROL => "操作中心"
  | TOE_EX => "足先EX"
  | HAND_ACCESSORIES => "手持ちアクセサリ用ダミー"
  | SHOULDER_CANCEL => "肩キャンセル"
  | THUMB_0 => "親指０"
  | OTHERS => "その他・独自"
  end.

(** The catalog: every member carries a role and its standard name. *)

Inductive MMDBoneInfo : Set :=
  | 全ての親 | センター | グルーブ | 腰 | 上半身 | 上半身1
  | 上半身2 | 首 | 頭 | 両目 | 左目 | 右目
  | 左肩 | 左腕 | 左腕捩 | 左ひじ | 左手捩 | 左手首
  | 左親指０ | 左親指１ | 左親指２ | 左人指０ | 左人指１ | 左人指２
  | 左人指３ | 左中指０ | 左中指１ | 左中指２ | 左中指３ | 左薬指０
  | 左薬指１ | 左薬指２ | 左薬指３ | 左小指０ | 左小指１ | 左小指２
  | 左小指３ | 右肩 | 右腕 | 右腕捩 | 右ひじ | 右手捩
  | 右手首 | 右親指０ | 右親指１ | 右親指２ | 右人指０ | 右人指１
  | 右人指２ | 右人指３ | 右中指０ | 右中指１ | 右中指２ | 右中指３
  | 右薬指０ | 右薬指１ | 右薬指２ | 右薬指３ | 右小指０ | 右小指１
  | 右小指２ | 右小指３ | 下半身 | 左足 | 左ひざ | 左足首
  | 左足ＩＫ | 左足先EX | 左足D | 左ひざD | 左足首D | 右足
  | 右ひざ | 右足首 | 右足ＩＫ | 右足先EX | 右足D | 右ひざD
  | 右足首D | 左つま先ＩＫ | 右つま先ＩＫ | 左つま先 | 右つま先 | 左肩C
  | 左肩P | 右肩C | 右肩P | 左ダミー | 右ダミー | 左足IK親
  | 右足IK親.

Definition bone_type (m : MMDBoneInfo) : MMDBoneType :=
  match m with
  | 全ての親 => PARENT
  | センター => STANDARD
  | グルーブ => GROOVE
  | 腰 => TOLSO
  | 上半身 => STANDARD
  | 上半身1 => UPPER_BODY_1
  | 上半身2 => UPPER_BODY_2
  | 首 => STANDARD
  | 頭 => STANDARD
  | 両目 => STANDARD
  | 左目 => STANDARD
  | 右目 => STANDARD
  | 左肩 => STANDARD
  | 左腕 => STANDARD
  | 左腕捩 => UPPER_ARM_TWIST
  | 左ひじ => STANDARD
  | 左手捩 => WRIST_TWIST
  | 左手首 => STANDARD
  | 左親指０ => THUMB_0
  | 左親指１ => STANDARD
  | 左親指２ => STANDARD
  | 左人指０ => OTHERS
  | 左人指１ => STANDARD
  | 左人指２ => STANDARD
  | 左人指３ => STANDARD
  | 左中指０ => OTHERS
  | 左中指１ => STANDARD
  | 左中指２ => STANDARD
  | 左中指３ => STANDARD
  | 左薬指０ => OTHERS
  | 左薬指１ => STANDARD
  | 左薬指２ => STANDARD
  | 左薬指３ => STANDARD
  | 左小指０ => OTHERS
  | 左小指１ => STANDARD
  | 左小指２ => STANDARD
  | 左小指３ => STANDARD
  | 右肩 => STANDARD
  | 右腕 => STANDARD
  | 右腕捩 => UPPER_ARM_TWIST
  | 右ひじ => STANDARD
  | 右手捩 => WRIST_TWIST
  | 右手首 => STANDARD
  | 右親指０ => THUMB_0
  | 右親指１ => STANDARD
  | 右親指２ => STANDARD
  | 右人指０ => OTHERS
  | 右人指１ => STANDARD
  | 右人指２ => STANDARD
  | 右人指３ => STANDARD
  | 右中指０ => OTHERS
  | 右中指１ => STANDARD
  | 右中指２ => STANDARD
  | 右中指３ => STANDARD
  | 右薬指０ => OTHERS
  | 右薬指１ => STANDARD
  | 右薬指２ => STANDARD
  | 右薬指３ => STANDARD
  | 右小指０ => OTHERS
  | 右小指１ => STANDARD
  | 右小指２ => STANDARD
  | 右小指３ => STANDARD
  | 下半身 => STANDARD
  | 左足 => STANDARD
  | 左ひざ => STANDARD
  | 左足首 => STANDARD
  | 左足ＩＫ => STANDARD
  | 左足先EX => TOE_EX
  | 左足D => TOE_EX
  | 左ひざD => TOE_EX
  | 左足首D => TOE_EX
  | 右足 => STANDARD
  | 右ひざ => STANDARD
  | 右足首 => STANDARD
  | 右足ＩＫ => STANDARD
  | 右足先EX => TOE_EX
  | 右足D => TOE_EX
  | 右ひざD => TOE_EX
  | 右足首D => TOE_EX
  | 左つま先ＩＫ => STANDARD
  | 右つま先ＩＫ => STANDARD
  | 左つま先 => STANDARD
  | 右つま先 => STANDARD
  | 左肩C => SHOULDER_CANCEL
  | 左肩P => SHOULDER_CANCEL
  | 右肩C => SHOULDER_CANCEL
  | 右肩P => SHOULDER_CANCEL
  | 左ダミー => HAND_ACCESSORIES
  | 右ダミー => HAND_ACCESSORIES
  | 左足IK親 => LEG_IK_PARENT
  | 右足IK親 => LEG_IK_PARENT
  end.

Definition mmd_bone_name (m : MMDBoneInfo) : string :=
  match m with
  | 全ての親 => "全ての親"
  | センター => "センター"
  | グルーブ => "グルーブ"
  | 腰 => "腰"
  | 上半身 => "上半身"
  | 上半身1 => "上半身1"
  | 上半身2 => "上半身2"
  | 首 => "首"
  | 頭 => "頭"
  | 両目 => "両目"
  | 左目 => "左目"
  | 右目 => "右目"
  | 左肩 => "左肩"
  | 左腕 => "左腕"
  | 左腕捩 => "左腕捩"
  | 左ひじ => "左ひじ"
  | 左手捩 => "左手捩"
  | 左手首 => "左手首"
  | 左親指０ => "左親指０"
  | 左親指１ => "左親指１"
  | 左親指２ => "左親指２"
  | 左人指０ => "左人指０"
  | 左人指１ => "左人指１"
  | 左人指２ => "左人指２"
  | 左人指３ => "左人指３"
  | 左中指０ => "左中指０"
  | 左中指１ => "左中指１"
  | 左中指２ => "左中指２"
  | 左中指３ => "左中指３"
  | 左薬指０ => "左薬指０"
  | 左薬指１ => "左薬指１"
  | 左薬指２ => "左薬指２"
  | 左薬指３ => "左薬指３"
  | 左小指０ => "左小指０"
  | 左小指１ => "左小指１"
  | 左小指２ => "左小指２"
  | 左小指３ => "左小指３"
  | 右肩 => "右肩"
  | 右腕 => "右腕"
  | 右腕捩 => "右腕捩"
  | 右ひじ => "右ひじ"
  | 右手捩 => "右手捩"
  | 右手首 => "右手首"
  | 右親指０ => "右親指０"
  | 右親指１ => "右親指１"
  | 右親指２ => "右親指２"
  | 右人指０ => "右人指０"
  | 右人指１ => "右人指１"
  | 右人指２ => "右人指２"
  | 右人指３ => "右人指３"
  | 右中指０ => "右中指０"
  | 右中指１ => "右中指１"
  | 右中指２ => "右中指２"
  | 右中指３ => "右中指３"
  | 右薬指０ => "右薬指０"
  | 右薬指１ => "右薬指１"
  | 右薬指２ => "右薬指２"
  | 右薬指３ => "右薬指３"
  | 右小指０ => "右小指０"
  | 右小指１ => "右小指１"
  | 右小指２ => "右小指２"
  | 右小指３ => "右小指３"
  | 下半身 => "下半身"
  | 左足 => "左足"
  | 左ひざ => "左ひざ"
  | 左足首 => "左足首"
  | 左足ＩＫ => "左足ＩＫ"
  | 左足先EX => "左足先EX"
  | 左足D => "左足D"
  | 左ひざD => "左ひざD"
  | 左足首D => "左足首D"
  | 右足 => "右足"
  | 右ひざ => "右ひざ"
  | 右足首 => "右足首"
  | 右足ＩＫ => "右足ＩＫ"
  | 右足先EX => "右足先EX"
  | 右足D => "右足D"
  | 右ひざD => "右ひざD"
  | 右足首D => "右足首D"
  | 左つま先ＩＫ => "左つま先ＩＫ"
  | 右つま先ＩＫ => "右つま先ＩＫ"
  | 左つま先 => "左つま先"
  | 右つま先 => "右つま先"
  | 左肩C => "左肩C"
  | 左肩P => "左肩P"
  | 右肩C => "右肩C"
  | 右肩P => "右肩P"
  | 左ダミー => "左ダミー"
  | 右ダミー => "右ダミー"
  | 左足IK親 => "左足IK親"
  | 右足IK親 => "右足IK親"
  end.

Definition MMDBoneInfo_members : list MMDBoneInfo :=
  [ 全ての親; センター; グルーブ; 腰; 上半身; 上半身1;
    上半身2; 首; 頭; 両目; 左目; 右目;
    左肩; 左腕; 左腕捩; 左ひじ; 左手捩; 左手首;
    左親指０; 左親指１; 左親指２; 左人指０; 左人指１; 左人指２;
    左人指３; 左中指０; 左中指１; 左中指２; 左中指３; 左薬指０;
    左薬指１; 左薬指２; 左薬指３; 左小指０; 左小指１; 左小指２;
    左小指３; 右肩; 右腕; 右腕捩; 右ひじ; 右手捩;
    右手首; 右親指０; 右親指１; 右親指２; 右人指０; 右人指１;
    右人指２; 右人指３; 右中指０; 右中指１; 右中指２; 右中指３;
    右薬指０; 右薬指１; 右薬指２; 右薬指３; 右小指０; 右小指１;
    右小指２; 右小指３; 下半身; 左足; 左ひざ; 左足首;
    左足ＩＫ; 左足先EX; 左足D; 左ひざD; 左足首D; 右足;
    右ひざ; 右足首; 右足ＩＫ; 右足先EX; 右足D; 右ひざD;
    右足首D; 左つま先ＩＫ; 右つま先ＩＫ; 左つま先; 右つま先; 左肩C;
    左肩P; 右肩C; 右肩P; 左ダミー; 右ダミー; 左足IK親;
    右足IK親 ].

Inductive GroupType : Set :=
  | GROUP_NONE | FACE | TORSO | ARM_L | ARM_R | LEG_L | LEG_R.

Inductive MMDBindType : Set :=
  | BIND_NONE | COPY_POSE | COPY_PARENT | COPY_LOCAL | COPY_SPINE
  | COPY_TOE | COPY_EYE | COPY_ROOT | COPY_LEG_D.

Record MMDBindInfo : Set := {
  bone_info : MMDBoneInfo;
  pose_bone_name : option string;
  bind_bone_name : option string;
  group_type : GroupType;
  bind_type : MMDBindType
}.

Record DataPath : Set := {
  bone_name : string;
  prop_name : string
}.

Definition dquote : string := String "034"%char EmptyString.

Definition bone_data_path (d : DataPath) : string :=
  "[" +:+ dquote +:+ bone_name d +:+ dquote +:+ "]".

Definition prop_data_path (d : DataPath) : string :=
  "[" +:+ dquote +:+ prop_name d +:+ dquote +:+ "]".

Definition data_path (d : DataPath) : string :=
  bone_data_path d +:+ prop_data_path d.

Inductive ControlType : Set :=
  | EYE_MMD_UUUNYAA | BIND_MMD_UUUNYAA
  | LEG_L_MMD_UUUNYAA | LEG_R_MMD_UUUNYAA
  | TOE_L_MMD_UUUNYAA | TOE_R_MMD_UUUNYAA
  | TORSO_NECK_FOLLOW | TORSO_HEAD_FOLLOW
  | ARM_L_IK_FK | ARM_R_IK_FK
  | ARM_L_IK_STRETCH | ARM_R_IK_STRETCH
  | ARM_L_IK_PARENT | ARM_R_IK_PARENT
  | ARM_L_POLE_VECTOR | ARM_R_POLE_VECTOR
  | LEG_L_IK_FK | LEG_R_IK_FK
  | LEG_L_IK_STRETCH | LEG_R_IK_STRETCH
  | LEG_L_IK_PARENT | LEG_R_IK_PARENT
  | LEG_L_POLE_VECTOR | LEG_R_POLE_VECTOR
  | LEG_L_POLE_PARENT | LEG_R_POLE_PARENT.

Definition ControlType_members : list ControlType :=
  [ EYE_MMD_UUUNYAA; BIND_MMD_UUUNYAA; LEG_L_MMD_UUUNYAA; LEG_R_MMD_UUUNYAA;
    TOE_L_MMD_UUUNYAA; TOE_R_MMD_UUUNYAA; TORSO_NECK_FOLLOW; TORSO_HEAD_FOLLOW;
    ARM_L_IK_FK; ARM_R_IK_FK; ARM_L_IK_STRETCH; ARM_R_IK_STRETCH;
    ARM_L_IK_PARENT; ARM_R_IK_PARENT; ARM_L_POLE_VECTOR; ARM_R_POLE_VECTOR;
    LEG_L_IK_FK; LEG_R_IK_FK; LEG_L_IK_STRETCH; LEG_R_IK_STRETCH;
    LEG_L_IK_PARENT; LEG_R_IK_PARENT; LEG_L_POLE_VECTOR; LEG_R_POLE_VECTOR;
    LEG_L_POLE_PARENT; LEG_R_POLE_PARENT ].

#[global] Instance ControlType_eq_dec : EqDecision ControlType.
Proof. solve_decision. Defined.

Definition ControlType_index (c : ControlType) : nat :=
  default 0 (list_find (fun c' => c' = c) ControlType_members ≫= fun p => Some (fst p)).

#[global] Instance ControlType_countable : Countable ControlType.
Proof.
  apply (inj_countable' ControlType_index
           (fun n => default EYE_MMD_UUUNYAA (ControlType_members !! n))).
  intros c; destruct c; reflexivity.
Defined.

(** ** Left and right entries of the catalog *)

#[global] Instance MMDBoneType_eq_dec : EqDecision MMDBoneType.
Proof. solve_decision. Defined.

Definition left_marker : string := "左".
Definition right_marker : string := "右".

Fixpoint strip_prefix (p s : string) : option string :=
  match p with
  | EmptyString => Some s
  | String a p' =>
      match s with
      | String b s' => if Ascii.eqb a b then strip_prefix p' s' else None
      | EmptyString => None
      end
  end.

(** The entry, if it is a left one, has a right twin of the same role. *)
Definition mirrored (e : MMDBoneInfo) : bool :=
  match strip_prefix left_marker (mmd_bone_name e) with
  | None => true
  | Some rest =>
      existsb (fun e' =>
                 String.eqb (mmd_bone_name e') (right_marker +:+ rest)
                 && bool_decide (bone_type e' = bone_type e))
              MMDBoneInfo_members
  end.

Fixpoint distinct (l : list string) : bool :=
  match l with
  | [] => true
  | s :: l' => negb (existsb (String.eqb s) l') && distinct l'
  end.

(** ** Python dictionaries whose iteration order is observed

    A [dict] keeps its keys in insertion order; assigning to a key that is
    already present replaces the value and keeps the key's position. *)

Fixpoint dict_set {V : Type} (k : string) (v : V) (d : list (string * V))
  : list (string * V) :=
  match d with
  | [] => [(k, v)]
  | (k', v') :: d' =>
      if String.eqb k' k then (k', v) :: d' else (k', v') :: dict_set k v d'
  end.

Fixpoint dict_get {V : Type} (k : string) (d : list (string * V)) : option V :=
  match d with
  | [] => None
  | (k', v') :: d' => if String.eqb k' k then Some v' else dict_get k d'
  end.

Definition dict_contains {V : Type} (k : string) (d : list (string * V)) : bool :=
  match dict_get k d with
  | Some _ => true
  | None => false
  end.

Definition dict_keys {V : Type} (d : list (string * V)) : list string := d.*1.

(** [d.update(other)] *)
Definition dict_update {V : Type} (d other : list (string * V)) : list (string * V) :=
  foldl (fun acc kv => dict_set kv.1 kv.2 acc) d other.

(** What a [dict] filled from pairs in order is expected to hold, said
    without the dictionary: a key is bound to the value of the last pair
    that has it, and the keys come in the order of their first
    occurrence, each once. *)
Fixpoint last_binding {V : Type} (k : string) (pairs : list (string * V)) : option V :=
  match pairs with
  | [] => None
  | (k', v) :: pairs' =>
      match last_binding k pairs' with
      | Some v' => Some v'
      | None => if String.eqb k' k then Some v else None
      end
  end.

Definition insertion_order (keys : list string) : list string :=
  foldl (fun seen k => if bool_decide (k ∈ seen) then seen else seen ++ [k]) [] keys.

(** ** Geometry helpers of [ArmatureObjectABC] *)

Definition is_separator (c : ascii) : bool :=
  Ascii.eqb c "_" || Ascii.eqb c ".".

Definition is_side_letter (c : ascii) : bool :=
  Ascii.eqb c "l" || Ascii.eqb c "L" || Ascii.eqb c "r" || Ascii.eqb c "R".

(** The anchor [$] of Python's [re] without [MULTILINE]: the end of the
    string, or just before a newline that is the last character. *)
Definition at_end (rest : string) : bool :=
  match rest with
  | EmptyString => true
  | String c EmptyString => Ascii.eqb c "010"
  | _ => false
  end.

(** [re.search(r'[_\.]([lLrR])$', s)]: the leftmost position at which the
    pattern matches; the result is group 1. *)
Fixpoint re_search_side (s : string) : option ascii :=
  match s with
  | EmptyString => None
  | String sep rest =>
      match rest with
      | String letter tail =>
          if is_separator sep && is_side_letter letter && at_end tail
          then Some letter
          else re_search_side rest
      | EmptyString => None
      end
  end.

Definition to_bone_suffix (bone_name : string) : option string :=
  match re_search_side bone_name with
  | None => None
  | Some raw_suffix =>
      if Ascii.eqb raw_suffix "l" || Ascii.eqb raw_suffix "L"
      then Some "L"
      else Some "R"
  end.

(** The reading of the specification's words, for comparison: a trailing
    [l]/[r] of either case, where a separator before it is optional. *)
Fixpoint last_char (s : string) : option ascii :=
  match s with
  | EmptyString => None
  | String c EmptyString => Some c
  | String _ rest => last_char rest
  end.

Definition spec_side_suffix (name : string) : option string :=
  match last_char name with
  | Some c =>
      if Ascii.eqb c "l" || Ascii.eqb c "L" then Some "L"
      else if Ascii.eqb c "r" || Ascii.eqb c "R" then Some "R"
      else None
  | None => None
  end.

(** A name ends with a side marker: a separator, one of [letters], and the
    end of the string in the sense of [at_end]. *)
Definition ends_with_marker (letters : list ascii) (name : string) : Prop :=
  exists (stem : string) (sep letter : ascii) (tail : string),
    name = stem +:+ String sep (String letter tail)
    /\ is_separator sep = true
    /\ letter ∈ letters
    /\ at_end tail = true.

Definition left_letters : list ascii := ["l"; "L"]%char.
Definition right_letters : list ascii := ["r"; "R"]%char.

Section Geometry.
(** Numbers of the host ([float]) and [math.atan2] are kept abstract. *)
Context {float : Type} (atan2 : float -> float -> float).

Record Vector : Type := { x : float; y : float; z : float }.

Definition to_angle (vector : Vector) (plane : string) : result float :=
  if String.eqb plane "XZ" then Ok (atan2 (z vector) (x vector))
  else if String.eqb plane "XY" then Ok (atan2 (y vector) (x vector))
  else if String.eqb plane "YZ" then Ok (atan2 (z vector) (y vector))
  else Raise (ValueError
                ("unknown plane, expected: XY, XZ, YZ, not '" +:+ plane +:+ "'")).
End Geometry.

Arguments Vector : clear implicits.
Arguments Build_Vector {float} _ _ _.

(** [math.atan2] over the real numbers, for the worked value of the
    specification: the angle of the point [(x, y)] in [(-PI, PI]]. *)
Definition real_atan2 (y x : R) : R :=
  if Rlt_dec 0 x then atan (y / x)
  else if Rlt_dec x 0 then
    (if Rle_dec 0 y then atan (y / x) + PI else atan (y / x) - PI)%R
  else if Rlt_dec 0 y then (PI / 2)%R
  else if Rlt_dec y 0 then (- (PI / 2))%R
  else 0%R.

(** ** Names the host keeps unique

    The host stores a name in 63 bytes, and it keeps the names of the
    constraints of one stack, and of the variables of one driver,
    distinct.  A name that fits and is free is kept as given.  A name
    that fits, is taken, and has no digit at its end is extended by a
    separator and a number (['.001'] in a constraint stack, ['_001'] in a
    driver); the number is the host's choice.  What the host makes of any
    other name (empty, too long, or taken and ending in a digit) is left
    open. *)

Definition fits (name : string) : bool :=
  Nat.ltb 0 (String.length name) && Nat.leb (String.length name) 63.

Definition is_digit (c : ascii) : bool :=
  Nat.leb 48 (nat_of_ascii c) && Nat.leb (nat_of_ascii c) 57.

(** The name ends in no digit and leaves room for a number. *)
Definition plain (name : string) : bool :=
  Nat.leb (String.length name) 58
  && match last_char name with
     | Some c => negb (is_digit c)
     | None => false
     end.

Definition unique_name (suffix rename : list string -> string -> string)
    (taken : list string) (name : string) : string :=
  if fits name && negb (existsb (String.eqb name) taken) then name
  else if fits name && plain name then name +:+ suffix taken name
  else rename taken name.

(** ** Host objects

    [bpy.types.Object] is referred to by name.  A constraint records its
    kind (fixed by the host when it is created), its name, the fields
    assigned to it, and the drivers attached to its properties, one entry
    per driven property path.  A pose bone carries its constraint stack in
    evaluation order, the standard name tag [mmd_bone.name_j] and its
    custom properties. *)

Record Object : Set := { object_name : string }.

Record DriverVariable : Set := {
  variable_name : string;
  variable_target : Object;
  variable_data_path : string
}.

Record Driver : Set := {
  variables : list DriverVariable;
  expression : string
}.

Section Host.
Context {float : Type}.

Inductive Value : Type :=
  | VNone
  | VBool (b : bool)
  | VInt (n : Z)
  | VFloat (f : float)
  | VStr (s : string)
  | VObject (o : Object).

Record Constraint : Type := {
  con_type : string;
  con_name : string;
  con_fields : gmap string Value;
  con_drivers : list (string * Driver)
}.

Record PoseBone : Type := {
  constraints : list Constraint;
  mmd_bone_name_j : string;
  custom_properties : gmap string Value
}.

Definition Kwargs := list (string * Value).

(** *** The host

    What becomes of an assignment is the host's business.  Assigning to
    a property of a constraint, the host may store the value, store
    another one (a number clamped to the property's range, a subtarget
    cleared because it names the owner bone) or refuse with an exception
    (an unknown attribute, a value of the wrong type or outside the C
    range): [assign_field owner c key value] is the fields of the
    constraint [c] of the bone [owner] afterwards.  Assigning to a custom
    property of a bone, the host either refuses, and
    [property_error owner prop value] is the exception, or stores a value
    that reads back equal to the one given.  The naming functions are
    those of [unique_name], for constraints and for driver variables.
    The module is modelled over any such host. *)
Class Host : Type := {
  constraint_suffix : list string -> string -> string;
  constraint_rename : list string -> string -> string;
  variable_suffix : list string -> string -> string;
  variable_rename : list string -> string -> string;
  assign_field : PoseBone -> Constraint -> string -> Value -> result (gmap string Value);
  property_error : PoseBone -> string -> Value -> option PyError
}.

Context {host : Host}.

(** *** Host operations on a constraint *)

(** [setattr(constraint, key, value)] on a constraint of the bone
    [owner], where [taken] are the names of the other constraints of the
    stack: the kind is read-only, the name is made unique, every other
    key is the host's to store or refuse. *)
Definition constraint_setattr (owner : PoseBone) (taken : list string)
    (c : Constraint) (key : string) (value : Value) : result Constraint :=
  if String.eqb key "type" then
    Raise (AttributeError "type")
  else if String.eqb key "name" then
    match value with
    | VStr s =>
        Ok {| con_type := con_type c;
              con_name := unique_name constraint_suffix constraint_rename taken s;
              con_fields := con_fields c;
              con_drivers := con_drivers c |}
    | _ => Raise (TypeError "name")
    end
  else
    fields ← assign_field owner c key value;
    Ok {| con_type := con_type c;
          con_name := con_name c;
          con_fields := fields;
          con_drivers := con_drivers c |}.

Definition with_drivers (c : Constraint) (ds : list (string * Driver)) : Constraint :=
  {| con_type := con_type c;
     con_name := con_name c;
     con_fields := con_fields c;
     con_drivers := ds |}.

Definition has_driver (path : string) (c : Constraint) : bool :=
  existsb (fun d => String.eqb d.1 path) (con_drivers c).

(** [constraint.driver_add(path)]: the host hands back the driver that
    is already attached to the path, and creates an empty one only when
    there is none. *)
Definition driver_add (c : Constraint) (path : string) : Constraint :=
  if has_driver path c then c
  else with_drivers c
         (con_drivers c
            ++ [(path, {| variables := []; expression := "" |})]).

(** [constraint.driver_remove(path)]: every driver of the path goes; no
    driver there is not an error. *)
Definition driver_remove (c : Constraint) (path : string) : Constraint :=
  with_drivers c
    (List.filter (fun d => negb (String.eqb d.1 path)) (con_drivers c)).

(** Mutation of the driver object returned by [driver_add]: the first
    driver of the path. *)
Fixpoint update_driver (path : string) (f : Driver -> Driver)
    (ds : list (string * Driver)) : list (string * Driver) :=
  match ds with
  | [] => []
  | (p, d) :: ds' =>
      if String.eqb p path then (p, f d) :: ds'
      else (p, d) :: update_driver path f ds'
  end.

Definition drivers_of (path : string) (c : Constraint) : list Driver :=
  (List.filter (fun d => String.eqb d.1 path) (con_drivers c)).*2.

(** [driver.variables.new()] followed by the three assignments: the
    variable joins the driver under a name unique among the variables
    already there. *)
Definition variables_new (vars : list DriverVariable)
    (driver_variable : DriverVariable) : list DriverVariable :=
  vars ++ [{| variable_name :=
                unique_name variable_suffix variable_rename
                  (variable_name <$> vars) (variable_name driver_variable);
              variable_target := variable_target driver_variable;
              variable_data_path := variable_data_path driver_variable |}].

(** *** PoseUtil *)

Definition add_driver (constraint : Constraint) (driver_path : string)
    (driver_expression : string) (driver_variables : list DriverVariable)
  : Constraint :=
  let constraint := driver_add constraint driver_path in
  with_drivers constraint
    (update_driver driver_path
       (fun driver =>
          {| variables := foldl variables_new (variables driver) driver_variables;
             expression := driver_expression |})
       (con_drivers constraint)).

Definition add_influence_driver (constraint : Constraint) (target : Object)
    (data_path : string) (invert_influence : bool) : Constraint :=
  let variable :=
    {| variable_name := "mmd_uuunyaa_influence";
       variable_target := target;
       variable_data_path := data_path |} in
  add_driver constraint "influence"
    ((if invert_influence then "1-" else "+") +:+ variable_name variable)
    [variable].

Definition update_influence_driver (constraint : Constraint) (target : Object)
    (data_path : string) (invert_influence : bool) : Constraint :=
  let constraint := driver_remove constraint "influence" in
  add_influence_driver constraint target data_path invert_influence.

(** Binding of [**kwargs] at a call that also passes [explicit] keyword
    arguments to a function with the named parameters [params]: a key
    given twice is a [TypeError]. *)
Definition bind_kwargs (params : list string) (explicit extra : Kwargs)
  : result Kwargs :=
  match List.find (fun kv => bool_decide (kv.1 ∈ params ++ explicit.*1)) extra with
  | Some kv => Raise (TypeError kv.1)
  | None => Ok (explicit ++ extra)
  end.

Fixpoint setattr_all (owner : PoseBone) (taken : list string)
    (c : Constraint) (kwargs : Kwargs) : result Constraint :=
  match kwargs with
  | [] => Ok c
  | (key, value) :: kwargs' =>
      c' ← constraint_setattr owner taken c key value;
      setattr_all owner taken c' kwargs'
  end.

(** [constraints.new(constraint_type)]: a fresh constraint at the end of
    the stack; its name is the host's default until it is assigned, and
    its fields are those assigned to it since. *)
Definition constraints_new (constraint_type : string) : Constraint :=
  {| con_type := constraint_type;
     con_name := "";
     con_fields := ∅;
     con_drivers := [] |}.

Definition with_constraints (b : PoseBone) (cs : list Constraint) : PoseBone :=
  {| constraints := cs;
     mmd_bone_name_j := mmd_bone_name_j b;
     custom_properties := custom_properties b |}.

(** A constraint handed out by the authoring layer is a reference into
    the bone's stack: the updated bone and the position of the
    constraint in it. *)
Definition add_constraint (pose_bone : PoseBone) (constraint_type name : string)
    (kwargs : Kwargs) : result (PoseBone * nat) :=
  let constraint := constraints_new constraint_type in
  let taken := con_name <$> constraints pose_bone in
  constraint ← constraint_setattr pose_bone taken constraint "name" (VStr name);
  constraint ← setattr_all pose_bone taken constraint kwargs;
  Ok (with_constraints pose_bone (constraints pose_bone ++ [constraint]),
      length (constraints pose_bone)).

Definition add_constraint_params : list string :=
  ["pose_bone"; "constraint_type"; "name"].

(** Mutation of a constraint through its reference. *)
Definition on_constraint (f : Constraint -> Constraint) (r : PoseBone * nat)
  : PoseBone * nat :=
  (with_constraints r.1 (alter f r.2 (constraints r.1)), r.2).

Definition add_copy_transforms_constraint (pose_bone : PoseBone)
    (target_object : Object) (subtarget space influence_data_path : string)
    (invert_influence : bool) (kwargs : Kwargs) : result (PoseBone * nat) :=
  kwargs ← bind_kwargs add_constraint_params
         [("target", VObject target_object);
          ("subtarget", VStr subtarget);
          ("target_space", VStr space);
          ("owner_space", VStr space)] kwargs;
  constraint ← add_constraint pose_bone "COPY_TRANSFORMS" "mmd_uuunyaa_copy_transforms" kwargs;
  Ok (on_constraint
        (fun c => add_influence_driver c target_object influence_data_path invert_influence)
        constraint).

Definition add_copy_rotation_constraint (pose_bone : PoseBone)
    (target_object : Object) (subtarget space influence_data_path : string)
    (invert_influence : bool) (kwargs : Kwargs) : result (PoseBone * nat) :=
  kwargs ← bind_kwargs add_constraint_params
         [("target", VObject target_object);
          ("subtarget", VStr subtarget);
          ("target_space", VStr space);
          ("owner_space", VStr space)] kwargs;
  constraint ← add_constraint pose_bone "COPY_ROTATION" "mmd_uuunyaa_copy_rotation" kwargs;
  Ok (on_constraint
        (fun c => add_influence_driver c target_object influence_data_path invert_influence)
        constraint).

Definition add_copy_location_constraint (pose_bone : PoseBone)
    (target_object : Object) (subtarget space influence_data_path : string)
    (invert_influence : bool) (kwargs : Kwargs) : result (PoseBone * nat) :=
  kwargs ← bind_kwargs add_constraint_params
         [("target", VObject target_object);
          ("subtarget", VStr subtarget);
          ("target_space", VStr space);
          ("owner_space", VStr space)] kwargs;
  constraint ← add_constraint pose_bone "COPY_LOCATION" "mmd_uuunyaa_copy_location" kwargs;
  Ok (on_constraint
        (fun c => add_influence_driver c target_object influence_data_path invert_influence)
        constraint).

Definition add_copy_scale_constraint (pose_bone : PoseBone)
    (target_object : Object) (subtarget space influence_data_path : string)
    (invert_influence : bool) (kwargs : Kwargs) : result (PoseBone * nat) :=
  kwargs ← bind_kwargs add_constraint_params
         [("target", VObject target_object);
          ("subtarget", VStr subtarget);
          ("target_space", VStr space);
          ("owner_space", VStr space)] kwargs;
  constraint ← add_constraint pose_bone "COPY_SCALE" "mmd_uuunyaa_copy_scale" kwargs;
  Ok (on_constraint
        (fun c => add_influence_driver c target_object influence_data_path invert_influence)
        constraint).

Definition add_ik_constraint (pose_bone : PoseBone)
    (target_object : Object) (subtarget influence_data_path : string)
    (chain_count iterations : Z)
    (invert_influence : bool) (kwargs : Kwargs) : result (PoseBone * nat) :=
  kwargs ← bind_kwargs add_constraint_params
         [("target", VObject target_object);
          ("subtarget", VStr subtarget);
          ("chain_count", VInt chain_count);
          ("iterations", VInt iterations)] kwargs;
  constraint ← add_constraint pose_bone "IK" "mmd_uuunyaa_ik_mmd" kwargs;
  Ok (on_constraint
        (fun c => add_influence_driver c target_object influence_data_path invert_influence)
        constraint).

(** [remove_constraints]: the loop over one bone's stack, which removes
    from the collection it is iterating.  [pose_bone.constraints] is a
    collection of the host, not a Python list (the module iterates
    [pose_bones] for its values in the same way): its iterator holds a
    link to the node it will hand out next and moves that link to the
    node's successor before the loop body runs.  [cursor] is the
    position of the next node; removing the node the body was given
    shifts every later node, and with it the link, one position down. *)
Fixpoint remove_prefixed (steps cursor : nat) (stack : list Constraint)
  : list Constraint :=
  match steps with
  | 0 => stack
  | S steps' =>
      match stack !! cursor with
      | None => stack
      | Some constraint =>
          let next := S cursor in
          if negb (String.prefix "mmd_uuunyaa_" (con_name constraint))
          then remove_prefixed steps' next stack
          else remove_prefixed steps' (Nat.pred next) (delete cursor stack)
      end
  end.

(** For comparison only, the same loop over a Python list, whose
    iterator is a position that moves forward whatever is removed. *)
Fixpoint remove_prefixed_by_position (steps position : nat)
    (stack : list Constraint) : list Constraint :=
  match steps with
  | 0 => stack
  | S steps' =>
      match stack !! position with
      | None => stack
      | Some constraint =>
          if negb (String.prefix "mmd_uuunyaa_" (con_name constraint))
          then remove_prefixed_by_position steps' (S position) stack
          else remove_prefixed_by_position steps' (S position) (delete position stack)
      end
  end.

Definition remove_constraints (pose_bones : gmap string PoseBone)
  : gmap string PoseBone :=
  (fun pose_bone =>
     with_constraints pose_bone
       (remove_prefixed (length (constraints pose_bone)) 0 (constraints pose_bone)))
  <$> pose_bones.

(** A constraint this engine authored: its name carries the prefix. *)
Definition engine_authored (c : Constraint) : bool :=
  String.prefix "mmd_uuunyaa_" (con_name c).

Definition user_authored (c : Constraint) : bool := negb (engine_authored c).

(** *** Evaluation of a driver by the host

    Modelled from the host interface: the expression is a small
    arithmetic string over the driver's variables ([+name], [1-name]),
    and a variable stands for the number found at its data path on its
    target.  [lookup_path] is the host's resolution of a data path. *)
Section DriverValue.
Context (float_one : float) (float_sub : float -> float -> float).
Context (lookup_path : Object -> string -> option float).

Definition variable_value (vars : list DriverVariable) (name : string)
  : option float :=
  v ← List.find (fun v => String.eqb (variable_name v) name) vars;
  lookup_path (variable_target v) (variable_data_path v).

Definition eval_expression (vars : list DriverVariable) (e : string)
  : option float :=
  match e with
  | String "+" name => variable_value vars name
  | String "1" (String "-" name) => float_sub float_one <$> variable_value vars name
  | _ => None
  end.

Definition driver_value (d : Driver) : option float :=
  eval_expression (variables d) (expression d).
End DriverValue.

(** A history of influence-driver calls on one constraint. *)
Inductive InfluenceCall : Set :=
  | AddInfluence (target : Object) (data_path : string) (invert_influence : bool)
  | UpdateInfluence (target : Object) (data_path : string) (invert_influence : bool).

Definition run_call (c : Constraint) (call : InfluenceCall) : Constraint :=
  match call with
  | AddInfluence target data_path invert_influence =>
      add_influence_driver c target data_path invert_influence
  | UpdateInfluence target data_path invert_influence =>
      update_influence_driver c target data_path invert_influence
  end.

Definition run_calls (c : Constraint) (calls : list InfluenceCall) : Constraint :=
  foldl run_call c calls.

Definition influence_variable (target : Object) (data_path : string)
  : DriverVariable :=
  {| variable_name := "mmd_uuunyaa_influence";
     variable_target := target;
     variable_data_path := data_path |}.

Definition influence_expression (invert_influence : bool) : string :=
  (if invert_influence then "1-" else "+") +:+ "mmd_uuunyaa_influence".

Definition influence_driver (target : Object) (data_path : string)
    (invert_influence : bool) : Driver :=
  {| variables := [influence_variable target data_path];
     expression := influence_expression invert_influence |}.

(** Extra keyword arguments a helper can be called with: distinct keys,
    none of them a parameter of [add_constraint], a keyword the helper
    passes itself, or the read-only kind. *)
Definition admissible_kwargs (explicit : list string) (kwargs : Kwargs) : Prop :=
  NoDup kwargs.*1
  /\ Forall (fun key => key ∉ "type" :: add_constraint_params ++ explicit) kwargs.*1.

Definition copy_keywords : list string :=
  ["target"; "subtarget"; "target_space"; "owner_space"].

Definition ik_keywords : list string :=
  ["target"; "subtarget"; "chain_count"; "iterations"].

(** The host takes the given assignments on the constraints of a kind
    of a bone: it stores each value as given and touches no other
    field. *)
Definition host_takes (owner : PoseBone) (kind : string) (fields : Kwargs) : Prop :=
  forall (c : Constraint) (key : string) (value : Value),
    con_type c = kind -> (key, value) ∈ fields ->
    assign_field owner c key value = Ok (<[key := value]> (con_fields c)).

(** The constraint is named after [name] in a stack where the names
    [taken] are in use: it carries the name itself when that is free,
    and the name followed by the host's suffix otherwise. *)
Definition named_after (taken : list string) (name : string) (c : Constraint) : Prop :=
  (name ∉ taken -> con_name c = name)
  /\ exists suffix, con_name c = name +:+ suffix.

(** What a helper leaves behind: the bone's stack grown by one
    constraint [c] at its end, the returned reference pointing at it,
    [c] of the given kind, named after the given name, holding exactly
    the given fields, and carrying exactly one driver, on its
    influence. *)
Definition authored (pose_bone : PoseBone) (kind name : string) (fields : Kwargs)
    (target : Object) (data_path : string) (invert_influence : bool)
    (r : result (PoseBone * nat)) : Prop :=
  exists (pose_bone' : PoseBone) (reference : nat) (c : Constraint),
    r = Ok (pose_bone', reference)
    /\ constraints pose_bone' = constraints pose_bone ++ [c]
    /\ mmd_bone_name_j pose_bone' = mmd_bone_name_j pose_bone
    /\ custom_properties pose_bone' = custom_properties pose_bone
    /\ constraints pose_bone' !! reference = Some c
    /\ con_type c = kind
    /\ named_after (con_name <$> constraints pose_bone) name c
    /\ (forall key value, (key, value) ∈ fields -> con_fields c !! key = Some value)
    /\ (forall key, key ∉ fields.*1 -> con_fields c !! key = None)
    /\ con_drivers c = [("influence", influence_driver target data_path invert_influence)].

(** ** RichArmatureObjectABC *)

Record RichArmatureObject : Type := {
  pose_bones : gmap string PoseBone;
  datapaths : gmap ControlType DataPath;
  mmd_bind_infos : list MMDBindInfo
}.

Definition with_pose_bones (self : RichArmatureObject)
    (bones : gmap string PoseBone) : RichArmatureObject :=
  {| pose_bones := bones;
     datapaths := datapaths self;
     mmd_bind_infos := mmd_bind_infos self |}.

Definition with_name_j (b : PoseBone) (name_j : string) : PoseBone :=
  {| constraints := constraints b;
     mmd_bone_name_j := name_j;
     custom_properties := custom_properties b |}.

Definition with_property (b : PoseBone) (prop : string) (value : Value) : PoseBone :=
  {| constraints := constraints b;
     mmd_bone_name_j := mmd_bone_name_j b;
     custom_properties := <[prop := value]> (custom_properties b) |}.

(** The merged mapping from standard names to pose bone names. *)
Definition mmd_bone_name2pose_bone_names (infos : list MMDBindInfo)
    (mmd2pose_bone_name_overrides : option (list (string * string)))
  : list (string * option string) :=
  let mapping :=
    foldl (fun acc b => dict_set (mmd_bone_name (bone_info b)) (pose_bone_name b) acc)
          [] infos in
  match mmd2pose_bone_name_overrides with
  | None => mapping
  | Some overrides => dict_update mapping ((fun kv => (kv.1, Some kv.2)) <$> overrides)
  end.

(** The standard names the call manages, in the order the source meets
    them, and the pose bone each is bound to: by the overrides when they
    have the name, by the bind infos otherwise. *)
Definition managed_names (infos : list MMDBindInfo)
    (mmd2pose_bone_name_overrides : option (list (string * string))) : list string :=
  ((fun b => mmd_bone_name (bone_info b)) <$> infos)
    ++ match mmd2pose_bone_name_overrides with
       | None => []
       | Some overrides => overrides.*1
       end.

Definition bound_pose_bone (infos : list MMDBindInfo)
    (mmd2pose_bone_name_overrides : option (list (string * string)))
    (mmd_bone_name_j : string) : option (option string) :=
  match mmd2pose_bone_name_overrides ≫= last_binding mmd_bone_name_j with
  | Some pose_bone_name => Some (Some pose_bone_name)
  | None =>
      last_binding mmd_bone_name_j
        ((fun b => (mmd_bone_name (bone_info b), pose_bone_name b)) <$> infos)
  end.

Definition clear_mmd_bone_names (mapping : list (string * option string))
    (bones : gmap string PoseBone) : gmap string PoseBone :=
  (fun pose_bone =>
     if negb (dict_contains (mmd_bone_name_j pose_bone) mapping)
     then pose_bone
     else with_name_j pose_bone "")
  <$> bones.

Definition assign_one (bones : gmap string PoseBone)
    (item : string * option string) : gmap string PoseBone :=
  match item.2 with
  | None => bones
  | Some pose_bone_name =>
      match bones !! pose_bone_name with
      | None => bones
      | Some pose_bone =>
          <[pose_bone_name := with_name_j pose_bone item.1]> bones
      end
  end.

(** The standard name the assignment loop leaves on the bone [k]: the
    key of the last item of the mapping that names [k], if any. *)
Fixpoint last_assigned (mapping : list (string * option string)) (k : string)
  : option string :=
  match mapping with
  | [] => None
  | (m, v) :: mapping' =>
      match last_assigned mapping' k with
      | Some m' => Some m'
      | None => if bool_decide (v = Some k) then Some m else None
      end
  end.

Definition assign_mmd_bone_names (self : RichArmatureObject)
    (mmd2pose_bone_name_overrides : option (list (string * string)))
  : RichArmatureObject :=
  let mapping :=
    mmd_bone_name2pose_bone_names (mmd_bind_infos self) mmd2pose_bone_name_overrides in
  let bones := clear_mmd_bone_names mapping (pose_bones self) in
  with_pose_bones self (foldl assign_one bones mapping).

Definition _get_property (self : RichArmatureObject) (control_type : ControlType)
  : result Value :=
  match datapaths self !! control_type with
  | None => Ok VNone
  | Some datapath =>
      match pose_bones self !! bone_name datapath with
      | None => Raise (KeyError (bone_name datapath))
      | Some pose_bone =>
          match custom_properties pose_bone !! prop_name datapath with
          | None => Raise (KeyError (prop_name datapath))
          | Some value => Ok value
          end
      end
  end.

Definition _set_property (self : RichArmatureObject) (control_type : ControlType)
    (value : Value) : result RichArmatureObject :=
  match datapaths self !! control_type with
  | None => Ok self
  | Some datapath =>
      match pose_bones self !! bone_name datapath with
      | None => Raise (KeyError (bone_name datapath))
      | Some pose_bone =>
          match property_error pose_bone (prop_name datapath) value with
          | Some e => Raise e
          | None =>
              Ok (with_pose_bones self
                    (<[bone_name datapath :=
                         with_property pose_bone (prop_name datapath) value]>
                       (pose_bones self)))
          end
      end
  end.

(** The generated accessors: one property per listed control. *)
Inductive Accessor : Set :=
  | torso_neck_follow | torso_head_follow
  | arm_l_ik_fk | arm_r_ik_fk
  | arm_l_ik_stretch | arm_r_ik_stretch
  | arm_l_ik_parent | arm_r_ik_parent
  | arm_l_pole_vector | arm_r_pole_vector
  | leg_l_ik_fk | leg_r_ik_fk
  | leg_l_ik_stretch | leg_r_ik_stretch
  | leg_l_ik_parent | leg_r_ik_parent
  | leg_l_pole_vector | leg_r_pole_vector
  | leg_l_pole_parent | leg_r_pole_parent.

Definition accessor_control (a : Accessor) : ControlType :=
  match a with
  | torso_neck_follow => TORSO_NECK_FOLLOW
  | torso_head_follow => TORSO_HEAD_FOLLOW
  | arm_l_ik_fk => ARM_L_IK_FK
  | arm_r_ik_fk => ARM_R_IK_FK
  | arm_l_ik_stretch => ARM_L_IK_STRETCH
  | arm_r_ik_stretch => ARM_R_IK_STRETCH
  | arm_l_ik_parent => ARM_L_IK_PARENT
  | arm_r_ik_parent => ARM_R_IK_PARENT
  | arm_l_pole_vector => ARM_L_POLE_VECTOR
  | arm_r_pole_vector => ARM_R_POLE_VECTOR
  | leg_l_ik_fk => LEG_L_IK_FK
  | leg_r_ik_fk => LEG_R_IK_FK
  | leg_l_ik_stretch => LEG_L_IK_STRETCH
  | leg_r_ik_stretch => LEG_R_IK_STRETCH
  | leg_l_ik_parent => LEG_L_IK_PARENT
  | leg_r_ik_parent => LEG_R_IK_PARENT
  | leg_l_pole_vector => LEG_L_POLE_VECTOR
  | leg_r_pole_vector => LEG_R_POLE_VECTOR
  | leg_l_pole_parent => LEG_L_POLE_PARENT
  | leg_r_pole_parent => LEG_R_POLE_PARENT
  end.

Definition getter (a : Accessor) (self : RichArmatureObject) : result Value :=
  _get_property self (accessor_control a).

Definition setter (a : Accessor) (self : RichArmatureObject) (value : Value)
  : result RichArmatureObject :=
  _set_property self (accessor_control a) value.

End Host.

(** ** Further operations of the module *)

Section VectorArithmetic.
(** Component-wise arithmetic of [mathutils.Vector] over the host's
    numbers; [two] is the divisor [2] of [to_center]. *)
Context {float : Type}.
Context (float_add float_sub float_mul float_div : float -> float -> float).
Context (two : float).

Definition vector_add (a b : Vector float) : Vector float :=
  Build_Vector (float_add (x a) (x b)) (float_add (y a) (y b)) (float_add (z a) (z b)).

Definition vector_sub (a b : Vector float) : Vector float :=
  Build_Vector (float_sub (x a) (x b)) (float_sub (y a) (y b)) (float_sub (z a) (z b)).

Definition vector_mul (a : Vector float) (s : float) : Vector float :=
  Build_Vector (float_mul (x a) s) (float_mul (y a) s) (float_mul (z a) s).

Definition vector_div (a : Vector float) (s : float) : Vector float :=
  Build_Vector (float_div (x a) s) (float_div (y a) s) (float_div (z a) s).

(** An edit bone: its two end points; [bone.vector] is the host's
    [tail - head]. *)
Record EditBone : Type := {
  bone_head : Vector float;
  bone_tail : Vector float
}.

Definition bone_vector (bone : EditBone) : Vector float :=
  vector_sub (bone_tail bone) (bone_head bone).

Definition to_center (left right : Vector float) : Vector float :=
  vector_div (vector_add left right) two.

Definition to_bone_center (bone : EditBone) : Vector float :=
  to_center (bone_head bone) (bone_tail bone).

Definition to_bone_stretch (bone : EditBone) (stretch_factor : float) : Vector float :=
  vector_add (bone_head bone) (vector_mul (bone_vector bone) stretch_factor).
End VectorArithmetic.

Arguments EditBone : clear implicits.

Section EditBones.
(** [edit_bones] is keyed by bone name; [edit_bones_new] is the bone the
    host creates for a name that is not taken.  The bone goes under the
    asked name when that fits, and under [edit_bones_name], the host's
    cut of it, when it does not. *)
Context {float : Type} (edit_bones_new : string -> EditBone float).
Context (edit_bones_name : gmap string (EditBone float) -> string -> string).

Definition get_or_create_bone (edit_bones : gmap string (EditBone float))
    (bone_name : string) : gmap string (EditBone float) * EditBone float :=
  match edit_bones !! bone_name with
  | Some bone => (edit_bones, bone)
  | None =>
      let bone := edit_bones_new bone_name in
      let stored_name :=
        if fits bone_name then bone_name else edit_bones_name edit_bones bone_name in
      (<[stored_name := bone]> edit_bones, bone)
  end.
End EditBones.

Section Authoring.
Context {float : Type} {host : @Host float}.

#[local] Abbreviation Value := (@Value float).
#[local] Abbreviation Kwargs := (@Kwargs float).
#[local] Abbreviation Constraint := (@Constraint float).
#[local] Abbreviation PoseBone := (@PoseBone float).
#[local] Abbreviation RichArmatureObject := (@RichArmatureObject float).

(** [list_constraints] is a generator over the bone's stack: the
    references it yields, in stack order, when the stack is left alone. *)
Fixpoint list_constraints_from (steps cursor : nat) (stack : list Constraint)
    (constraint_type : string) : list nat :=
  match steps with
  | 0 => []
  | S steps' =>
      match stack !! cursor with
      | None => []
      | Some constraint =>
          if String.eqb (con_type constraint) constraint_type
          then cursor :: list_constraints_from steps' (S cursor) stack constraint_type
          else list_constraints_from steps' (S cursor) stack constraint_type
      end
  end.

Definition list_constraints (pose_bone : PoseBone) (constraint_type : string)
  : list nat :=
  list_constraints_from (length (constraints pose_bone)) 0 (constraints pose_bone)
    constraint_type.

(** [edit_constraints]: the generator runs in step with the loop that
    consumes it, so each constraint is tested when the generator reaches
    it and edited at once if it is of the kind. *)
Fixpoint edit_constraints_from (owner : PoseBone) (steps cursor : nat)
    (stack : list Constraint) (constraint_type : string) (kwargs : Kwargs)
  : result (list Constraint) :=
  match steps with
  | 0 => Ok stack
  | S steps' =>
      match stack !! cursor with
      | None => Ok stack
      | Some constraint =>
          if String.eqb (con_type constraint) constraint_type
          then
            let taken := con_name <$> delete cursor stack in
            constraint ← setattr_all owner taken constraint kwargs;
            edit_constraints_from owner steps' (S cursor)
              (<[cursor := constraint]> stack) constraint_type kwargs
          else edit_constraints_from owner steps' (S cursor) stack constraint_type kwargs
      end
  end.

Definition edit_constraints (pose_bone : PoseBone) (constraint_type : string)
    (kwargs : Kwargs) : result PoseBone :=
  stack ← edit_constraints_from pose_bone (length (constraints pose_bone)) 0
             (constraints pose_bone) constraint_type kwargs;
  Ok (with_constraints pose_bone stack).

(** The fields of a constraint after the given assignments, in order. *)
Definition store_fields (c : Constraint) (kwargs : Kwargs) : Constraint :=
  {| con_type := con_type c;
     con_name := con_name c;
     con_fields := foldl (fun fields kv => <[kv.1 := kv.2]> fields) (con_fields c) kwargs;
     con_drivers := con_drivers c |}.

(** [add_prop]: the host's [rna_idprop_ui_create] assigns the default to
    the named custom property, whether or not it exists; the limits,
    description and other settings it records for the user interface are
    not part of this model. *)
Definition add_prop (pose_bone : PoseBone) (prop_name : string) (default : Value)
  : PoseBone :=
  with_property pose_bone prop_name default.

Definition create_props_controls : list ControlType :=
  [ BIND_MMD_UUUNYAA; EYE_MMD_UUUNYAA;
    LEG_L_MMD_UUUNYAA; LEG_R_MMD_UUUNYAA;
    TOE_L_MMD_UUUNYAA; TOE_R_MMD_UUUNYAA ].

(** [create_props]; [float_zero] is the default [0.000] of [add_prop]. *)
Definition create_props (float_zero : float) (self : RichArmatureObject)
    (prop_storage_bone : PoseBone) : PoseBone :=
  foldl (fun bone control_type =>
           match datapaths self !! control_type with
           | None => bone
           | Some data_path => add_prop bone (prop_name data_path) (VFloat float_zero)
           end)
        prop_storage_bone create_props_controls.

(** [_add_eye_constraints].  Its five arguments are pose bone objects of
    the rig; an object is denoted here by the name of its bone, which is
    also what its [name] attribute reads, and [raw_object] is the armature
    object of the rig.  [author] runs a helper on the bone an object
    denotes; a name that is no bone's denotes no object, and nothing is
    done for it. *)
Definition author (bones : gmap string PoseBone) (pose_bone : string)
    (helper : PoseBone -> result (PoseBone * nat)) : result (gmap string PoseBone) :=
  match bones !! pose_bone with
  | None => Ok bones
  | Some bone =>
      constraint ← helper bone;
      Ok (<[pose_bone := constraint.1]> bones)
  end.

Definition _add_eye_constraints (self : RichArmatureObject) (raw_object : Object)
    (target_eye_l_bone target_eye_r_bone : string)
    (control_eye_l_bone control_eye_r_bone control_eyes_bone : string)
  : result RichArmatureObject :=
  match datapaths self !! EYE_MMD_UUUNYAA with
  | None => Raise (KeyError "ControlType.EYE_MMD_UUUNYAA")
  | Some eye =>
      let eye_mmd_uuunyaa_data_path := "pose.bones" +:+ data_path eye in
      bones ← author (pose_bones self) target_eye_l_bone
                (fun bone => add_copy_rotation_constraint bone raw_object
                               control_eye_l_bone "LOCAL" eye_mmd_uuunyaa_data_path true []);
      bones ← author bones target_eye_r_bone
                (fun bone => add_copy_rotation_constraint bone raw_object
                               control_eye_r_bone "LOCAL" eye_mmd_uuunyaa_data_path true []);
      bones ← author bones control_eye_l_bone
                (fun bone => add_copy_rotation_constraint bone raw_object
                               control_eyes_bone "LOCAL" eye_mmd_uuunyaa_data_path true
                               [("mix_mode", VStr "ADD")]);
      bones ← author bones control_eye_r_bone
                (fun bone => add_copy_rotation_constraint bone raw_object
                               control_eyes_bone "LOCAL" eye_mmd_uuunyaa_data_path true
                               [("mix_mode", VStr "ADD")]);
      Ok (with_pose_bones self bones)
  end.
End Authoring.

Section HelperCalls.
Context {float : Type} {host : @Host float}.

(** The five constraint helpers, called on one bone. *)
Definition helper_calls (pose_bone : @PoseBone float) (target_object : Object)
    (subtarget space influence_data_path : string) (chain_count iterations : Z)
    (invert_influence : bool) (kwargs kwargs_ik : @Kwargs float)
  : list (result (@PoseBone float * nat)) :=
  [ add_copy_transforms_constraint pose_bone target_object subtarget space
      influence_data_path invert_influence kwargs;
    add_copy_rotation_constraint pose_bone target_object subtarget space
      influence_data_path invert_influence kwargs;
    add_copy_location_constraint pose_bone target_object subtarget space
      influence_data_path invert_influence kwargs;
    add_copy_scale_constraint pose_bone target_object subtarget space
      influence_data_path invert_influence kwargs;
    add_ik_constraint pose_bone target_object subtarget influence_data_path
      chain_count iterations invert_influence kwargs_ik ].
End HelperCalls.

Section AuthoringShapes.
Context {float : Type}.

(** The drivers of a constraint on properties other than its influence. *)
Definition other_drivers (c : @Constraint float) : list (string * Driver) :=
  List.filter (fun d => negb (String.eqb d.1 "influence")) (con_drivers c).

(** A constraint as [edit_constraints] leaves it. *)
Definition edited (constraint_type : string) (kwargs : @Kwargs float)
    (c : @Constraint float) : @Constraint float :=
  if String.eqb (con_type c) constraint_type then store_fields c kwargs else c.

(** The fields [_add_eye_constraints] assigns to a constraint. *)
Definition eye_fields (raw_object : Object) (subtarget : string) (additive : bool)
  : @Kwargs float :=
  [("target", VObject raw_object); ("subtarget", VStr subtarget);
   ("target_space", VStr "LOCAL"); ("owner_space", VStr "LOCAL")]
    ++ (if additive then [("mix_mode", VStr "ADD")] else []).

(** A constraint of the eye rig on a bone whose stack was [stack]: a
    local ['COPY_ROTATION'] on [subtarget] of [raw_object], additive or
    not, driven inverted by [path]. *)
Definition eye_constraint (stack : list (@Constraint float)) (raw_object : Object)
    (subtarget path : string) (additive : bool) (c : @Constraint float) : Prop :=
  con_type c = "COPY_ROTATION"
  /\ named_after (con_name <$> stack) "mmd_uuunyaa_copy_rotation" c
  /\ con_fields c !! "target" = Some (VObject raw_object)
  /\ con_fields c !! "subtarget" = Some (VStr subtarget)
  /\ con_fields c !! "target_space" = Some (VStr "LOCAL")
  /\ con_fields c !! "owner_space" = Some (VStr "LOCAL")
  /\ con_fields c !! "mix_mode" = (if additive then Some (VStr "ADD") else None)
  /\ con_drivers c = [("influence", influence_driver raw_object path true)].
End AuthoringShapes.

(** The string holds no double quote. *)
Fixpoint no_quote (s : string) : bool :=
  match s with
  | EmptyString => true
  | String c s' => negb (Ascii.eqb c "034") && no_quote s'
  end.

(** The entry, if it is a right one, has a left twin of the same role. *)
Definition mirrored_back (e : MMDBoneInfo) : bool :=
  match strip_prefix right_marker (mmd_bone_name e) with
  | None => true
  | Some rest =>
      existsb (fun e' =>
                 String.eqb (mmd_bone_name e') (left_marker +:+ rest)
                 && bool_decide (bone_type e' = bone_type e))
              MMDBoneInfo_members
  end.

(** ** A small rig, for worked instances

    One armature object with a property bone [torso] that stores the left
    arm's IK/FK blend and a hand bone carrying one constraint of the
    engine and one of the user.  Numbers are rationals here. *)

Definition example_object : Object := {| object_name := "Armature" |}.

(** The host of the worked instances.  A taken name gets the first free
    three-digit number; a name it cannot keep is first cut to 58 bytes.
    A constraint has the attributes listed for its kind; an integer
    outside the C [int] range is refused with [ValueError], the chain
    length of an IK constraint is clamped to 0..255 and its iterations to
    0..10000, and everything else is stored as given.  A custom property
    refuses an integer outside the C [int] range with [OverflowError],
    and with [TypeError] a value that is no number when it holds a
    number, and a fraction when it holds anything but one. *)
Definition number3 (n : nat) : string :=
  let digit := fun k => ascii_of_nat (48 + k mod 10) in
  String (digit (n / 100)) (String (digit (n / 10)) (String (digit n) EmptyString)).

Fixpoint free_suffix (separator : string) (fuel n : nat) (taken : list string)
    (name : string) : string :=
  let suffix := separator +:+ number3 n in
  match fuel with
  | 0 => suffix
  | S fuel' =>
      if existsb (String.eqb (name +:+ suffix)) taken
      then free_suffix separator fuel' (S n) taken name
      else suffix
  end.

Definition example_suffix (separator : string) (taken : list string) (name : string)
  : string :=
  free_suffix separator (length taken) 1 taken name.

Definition example_rename (separator : string) (taken : list string) (name : string)
  : string :=
  let stem := String.substring 0 58 name in
  if existsb (String.eqb stem) taken || negb (fits stem)
  then stem +:+ example_suffix separator taken stem
  else stem.

Definition example_attributes (kind : string) : list string :=
  ["influence"; "mute"; "target_space"; "owner_space"; "target"; "subtarget"]
    ++ (if String.eqb kind "IK" then ["chain_count"; "iterations"; "use_tail"]
        else if String.eqb kind "COPY_ROTATION" || String.eqb kind "COPY_TRANSFORMS"
             then ["mix_mode"]
             else []).

Definition in_c_int (n : Z) : bool :=
  Z.leb (- 2 ^ 31) n && Z.ltb n (2 ^ 31).

Definition clamp (low high n : Z) : Z := Z.max low (Z.min high n).

Definition example_clamp (key : string) (n : Z) : Z :=
  if String.eqb key "chain_count" then clamp 0 255 n
  else if String.eqb key "iterations" then clamp 0 10000 n
  else n.

Definition example_assign_field (owner : @PoseBone Q) (c : @Constraint Q)
    (key : string) (value : @Value Q) : result (gmap string (@Value Q)) :=
  if negb (existsb (String.eqb key) (example_attributes (con_type c))) then
    Raise (AttributeError key)
  else
    match value with
    | VInt n =>
        if negb (in_c_int n) then Raise (ValueError key)
        else Ok (<[key := VInt (example_clamp key n)]> (con_fields c))
    | _ => Ok (<[key := value]> (con_fields c))
    end.

(** The example host stores the assignment to a constraint of the kind
    as it is given. *)
Definition example_stores (kind : string) (kv : string * @Value Q) : bool :=
  existsb (String.eqb kv.1) (example_attributes kind)
  && match kv.2 with
     | VInt n => in_c_int n && Z.eqb (example_clamp kv.1 n) n
     | _ => true
     end.

Definition example_property_error (owner : @PoseBone Q) (prop : string)
    (value : @Value Q) : option PyError :=
  match value with
  | VInt n =>
      if in_c_int n then None
      else Some (OverflowError "Python int too large to convert to C int")
  | VFloat _ =>
      match custom_properties owner !! prop with
      | Some (VFloat _) | None => None
      | _ => Some (TypeError prop)
      end
  | _ =>
      match custom_properties owner !! prop with
      | Some (VFloat _) | Some (VInt _) => Some (TypeError prop)
      | _ => None
      end
  end.

#[global] Instance example_host : @Host Q :=
  {| constraint_suffix := example_suffix ".";
     constraint_rename := example_rename ".";
     variable_suffix := example_suffix "_";
     variable_rename := example_rename "_";
     assign_field := example_assign_field;
     property_error := example_property_error |}.

Definition example_user_constraint : @Constraint Q :=
  {| con_type := "COPY_ROTATION";
     con_name := "Copy Rotation";
     con_fields := ∅;
     con_drivers := [] |}.

Definition example_engine_constraint : @Constraint Q :=
  {| con_type := "COPY_ROTATION";
     con_name := "mmd_uuunyaa_copy_rotation";
     con_fields := ∅;
     con_drivers := [] |}.

Definition example_torso : @PoseBone Q :=
  {| constraints := [];
     mmd_bone_name_j := "上半身";
     custom_properties := ∅ |}.

Definition example_hand : @PoseBone Q :=
  {| constraints := [example_engine_constraint; example_engine_constraint;
                     example_user_constraint; example_engine_constraint];
     mmd_bone_name_j := "左手首";
     custom_properties := ∅ |}.

Definition example_datapath : DataPath :=
  {| bone_name := "torso"; prop_name := "IK_FK" |}.

Definition example_rig : @RichArmatureObject Q :=
  {| pose_bones := {[ "torso" := example_torso; "hand.L" := example_hand ]};
     datapaths := {[ ARM_L_IK_FK := example_datapath;
                     ARM_R_IK_FK := {| bone_name := "missing"; prop_name := "IK_FK" |} ]};
     mmd_bind_infos :=
       [ {| bone_info := 左手首; pose_bone_name := Some "hand.L";
            bind_bone_name := None; group_type := ARM_L; bind_type := COPY_POSE |};
         {| bone_info := 上半身; pose_bone_name := Some "spine";
            bind_bone_name := None; group_type := TORSO; bind_type := COPY_SPINE |};
         {| bone_info := 首; pose_bone_name := None;
            bind_bone_name := None; group_type := TORSO; bind_type := BIND_NONE |} ] |}.

(** ** A rig with eye bones, and results of calls on the small rig *)

(** The constraint a helper call returned. *)
Definition returned_constraint (r : result (@PoseBone Q * nat)) : option (@Constraint Q) :=
  match r with
  | Ok r => constraints r.1 !! r.2
  | Raise _ => None
  end.

Definition example_eye_bone : @PoseBone Q :=
  {| constraints := [example_user_constraint];
     mmd_bone_name_j := "";
     custom_properties := ∅ |}.

Definition example_eye_rig : @RichArmatureObject Q :=
  {| pose_bones := {[ "eye.L" := example_eye_bone; "eye.R" := example_eye_bone;
                      "c_eye.L" := example_eye_bone; "c_eye.R" := example_eye_bone;
                      "c_eyes" := example_eye_bone; "torso" := example_torso ]};
     datapaths := {[ EYE_MMD_UUUNYAA :=
                       {| bone_name := "torso"; prop_name := "eye_mmd_uuunyaa" |} ]};
     mmd_bind_infos := [] |}.

(** The eye rig after [create_props] on its storage bone. *)
Definition example_eye_rig_props : @RichArmatureObject Q :=
  with_pose_bones example_eye_rig
    (<["torso" := create_props 0%Q example_eye_rig example_torso]>
       (pose_bones example_eye_rig)).

Definition example_eye_rig_bound : @RichArmatureObject Q :=
  match _add_eye_constraints example_eye_rig example_object
          "eye.L" "eye.R" "c_eye.L" "c_eye.R" "c_eyes" with
  | Ok self' => self'
  | Raise _ => example_eye_rig
  end.

Definition example_authored : @PoseBone Q * nat :=
  match add_copy_rotation_constraint example_torso example_object "eyes" "LOCAL"
          "pose.bones" true [] with
  | Ok r => r
  | Raise _ => (example_torso, 0)
  end.

Definition example_stacked : @PoseBone Q * nat :=
  match add_ik_constraint example_authored.1 example_object "hand_ik.L"
          "pose.bones" 2 10 false [] with
  | Ok r => r
  | Raise _ => example_authored
  end.

Definition example_rig_set : @RichArmatureObject Q :=
  match _set_property example_rig ARM_L_IK_FK (VFloat 1%Q) with
  | Ok self' => self'
  | Raise _ => example_rig
  end.

(** * Properties *)

(** ** Dictionaries *)

Lemma dict_set_keys {V : Type} (k : string) (v : V) (d : list (string * V)) :
  forall k', k' ∈ (dict_set k v d).*1 <-> k' = k \/ k' ∈ d.*1.
Proof.
  induction d as [|[k0 v0] d IH]; intros k'; simpl.
  - rewrite elem_of_cons, elem_of_nil. tauto.
  - destruct (String.eqb_spec k0 k) as [->|Hne]; simpl.
    + rewrite !elem_of_cons. tauto.
    + rewrite !elem_of_cons, IH. tauto.
Qed.

Lemma dict_set_NoDup {V : Type} (k : string) (v : V) (d : list (string * V)) :
  NoDup d.*1 -> NoDup (dict_set k v d).*1.
Proof.
  induction d as [|[k0 v0] d IH]; simpl; intros Hd.
  - apply NoDup_singleton.
  - apply NoDup_cons in Hd as [Hk0 Hd].
    destruct (String.eqb_spec k0 k) as [->|Hne]; simpl.
    + apply NoDup_cons. auto.
    + apply NoDup_cons. split; [|apply IH, Hd].
      rewrite dict_set_keys. intros [->|H]; [congruence|contradiction].
Qed.

Lemma dict_update_NoDup {V : Type} (other d : list (string * V)) :
  NoDup d.*1 -> NoDup (dict_update d other).*1.
Proof.
  unfold dict_update. revert d.
  induction other as [|[k v] other IH]; intros d Hd; simpl; [exact Hd|].
  apply IH, dict_set_NoDup, Hd.
Qed.

Lemma dict_get_elem {V : Type} (k : string) (v : V) (d : list (string * V)) :
  NoDup d.*1 -> (k, v) ∈ d -> dict_get k d = Some v.
Proof.
  induction d as [|[k0 v0] d IH]; simpl; intros Hd Hin.
  - apply elem_of_nil in Hin as [].
  - apply NoDup_cons in Hd as [Hk0 Hd].
    apply elem_of_cons in Hin as [[= <- <-]|Hin].
    + rewrite String.eqb_refl. reflexivity.
    + destruct (String.eqb_spec k0 k) as [->|Hne]; [|apply IH; assumption].
      exfalso. apply Hk0. apply list_elem_of_fmap. exists (k, v). auto.
Qed.

Lemma dict_contains_keys {V : Type} (k : string) (d : list (string * V)) :
  dict_contains k d = true <-> k ∈ dict_keys d.
Proof.
  unfold dict_contains, dict_keys.
  induction d as [|[k0 v0] d IH]; simpl.
  - rewrite elem_of_nil. split; [discriminate|tauto].
  - rewrite elem_of_cons. destruct (String.eqb_spec k0 k) as [->|Hne].
    + tauto.
    + rewrite IH. split; [tauto|]. intros [->|H]; [congruence|exact H].
Qed.

Lemma mapping_NoDup (infos : list MMDBindInfo)
    (overrides : option (list (string * string))) :
  NoDup (dict_keys (mmd_bone_name2pose_bone_names infos overrides)).
Proof.
  unfold mmd_bone_name2pose_bone_names, dict_keys.
  assert (forall acc : list (string * option string),
             NoDup acc.*1 ->
             NoDup (foldl (fun acc b =>
                             dict_set (mmd_bone_name (bone_info b)) (pose_bone_name b) acc)
                          acc infos).*1) as Hfold.
  { induction infos as [|b infos IH]; intros acc Hacc; simpl; [exact Hacc|].
    apply IH, dict_set_NoDup, Hacc. }
  destruct overrides as [o|].
  - apply dict_update_NoDup, Hfold, NoDup_nil_2.
  - apply Hfold, NoDup_nil_2.
Qed.

Lemma dict_update_keys {V : Type} (other d : list (string * V)) (k : string) :
  k ∈ (dict_update d other).*1 <-> k ∈ d.*1 \/ k ∈ other.*1.
Proof.
  unfold dict_update. revert d.
  induction other as [|[k0 v0] other IH]; intros d; simpl.
  - rewrite elem_of_nil. tauto.
  - rewrite IH, dict_set_keys, elem_of_cons. tauto.
Qed.

Lemma dict_get_set {V : Type} (k k' : string) (v : V) (d : list (string * V)) :
  dict_get k (dict_set k' v d) = if String.eqb k' k then Some v else dict_get k d.
Proof.
  induction d as [|[k0 v0] d IH]; simpl; [reflexivity|].
  destruct (String.eqb_spec k0 k') as [->|Hne]; simpl.
  - destruct (String.eqb k' k); reflexivity.
  - rewrite IH. destruct (String.eqb_spec k0 k) as [->|_]; [|reflexivity].
    destruct (String.eqb_spec k' k) as [->|_]; [contradiction|reflexivity].
Qed.

Lemma dict_get_fold {V : Type} (k : string) (pairs d : list (string * V)) :
  dict_get k (foldl (fun acc kv => dict_set kv.1 kv.2 acc) d pairs)
  = match last_binding k pairs with
    | Some v => Some v
    | None => dict_get k d
    end.
Proof.
  revert d. induction pairs as [|[k' v] pairs IH]; intros d; simpl; [reflexivity|].
  rewrite IH, dict_get_set.
  destruct (last_binding k pairs); [reflexivity|].
  destruct (String.eqb k' k); reflexivity.
Qed.

Lemma last_binding_fmap {V W : Type} (g : V -> W) (k : string)
    (pairs : list (string * V)) :
  last_binding k ((fun kv => (kv.1, g kv.2)) <$> pairs) = g <$> last_binding k pairs.
Proof.
  induction pairs as [|[k' v] pairs IH]; [reflexivity|].
  rewrite fmap_cons. cbn [last_binding fst snd]. rewrite IH.
  destruct (last_binding k pairs); simpl; [reflexivity|].
  destruct (String.eqb k' k); reflexivity.
Qed.

Lemma dict_set_order {V : Type} (k : string) (v : V) (d : list (string * V)) :
  (dict_set k v d).*1 = if bool_decide (k ∈ d.*1) then d.*1 else d.*1 ++ [k].
Proof.
  induction d as [|[k0 v0] d IH]; cbn [dict_set].
  - rewrite bool_decide_eq_false_2; [reflexivity|]. apply not_elem_of_nil.
  - destruct (String.eqb_spec k0 k) as [->|Hne]; rewrite !fmap_cons; cbn [fst].
    + rewrite bool_decide_eq_true_2; [reflexivity|]. apply elem_of_cons. tauto.
    + rewrite IH. case_bool_decide as Hin.
      * rewrite bool_decide_eq_true_2; [reflexivity|]. apply elem_of_cons. tauto.
      * rewrite bool_decide_eq_false_2; [reflexivity|].
        rewrite elem_of_cons. intros [->|H]; [congruence|contradiction].
Qed.

Lemma dict_fold_order {V : Type} (pairs d : list (string * V)) :
  (foldl (fun acc kv => dict_set kv.1 kv.2 acc) d pairs).*1
  = foldl (fun seen k => if bool_decide (k ∈ seen) then seen else seen ++ [k])
          d.*1 pairs.*1.
Proof.
  revert d. induction pairs as [|[k v] pairs IH]; intros d; simpl; [reflexivity|].
  rewrite IH, dict_set_order. reflexivity.
Qed.

Lemma foldl_fmap_pairs {A B C : Type} (f : A -> B -> A) (g : C -> B) (a : A)
    (l : list C) :
  foldl f a (g <$> l) = foldl (fun a x => f a (g x)) a l.
Proof. revert a. induction l as [|x l IH]; intros a; simpl; [reflexivity|apply IH]. Qed.

(** The merged mapping is the dictionary the call's arguments describe:
    its keys are the managed names in the order of their first
    occurrence, and each is bound as the overrides, or else the bind
    infos, say. *)
Lemma mapping_bound (infos : list MMDBindInfo)
    (overrides : option (list (string * string))) :
  let mapping := mmd_bone_name2pose_bone_names infos overrides in
  dict_keys mapping = insertion_order (managed_names infos overrides)
  /\ forall m, dict_get m mapping = bound_pose_bone infos overrides m.
Proof.
  unfold mmd_bone_name2pose_bone_names, bound_pose_bone, managed_names, dict_keys,
    insertion_order, dict_update.
  set (pair_of := fun b : MMDBindInfo => (mmd_bone_name (bone_info b), pose_bone_name b)).
  assert (forall acc : list (string * option string),
             foldl (fun acc b =>
                      dict_set (mmd_bone_name (bone_info b)) (pose_bone_name b) acc)
                   acc infos
             = foldl (fun acc kv => dict_set kv.1 kv.2 acc) acc (pair_of <$> infos))
    as Hinfos.
  { intros acc. rewrite foldl_fmap_pairs. reflexivity. }
  simpl. rewrite Hinfos. split.
  - rewrite foldl_app. destruct overrides as [o|]; simpl.
    + rewrite dict_fold_order, dict_fold_order, <- !list_fmap_compose. reflexivity.
    + rewrite dict_fold_order, <- list_fmap_compose. reflexivity.
  - intros m. destruct overrides as [o|]; simpl.
    + rewrite dict_get_fold, last_binding_fmap.
      destruct (last_binding m o); simpl; [reflexivity|].
      rewrite dict_get_fold.
      destruct (last_binding m (pair_of <$> infos)); reflexivity.
    + rewrite dict_get_fold.
      destruct (last_binding m (pair_of <$> infos)); reflexivity.
Qed.

Lemma dict_get_is_elem {V : Type} (k : string) (v : V) (d : list (string * V)) :
  dict_get k d = Some v -> (k, v) ∈ d.
Proof.
  induction d as [|[k0 v0] d IH]; simpl; [discriminate|].
  destruct (String.eqb_spec k0 k) as [->|_].
  - intros [= ->]. apply elem_of_cons. left. reflexivity.
  - intros H. apply elem_of_cons. right. apply IH, H.
Qed.

Lemma mapping_keys (infos : list MMDBindInfo)
    (overrides : option (list (string * string))) (k : string) :
  k ∈ dict_keys (mmd_bone_name2pose_bone_names infos overrides)
  <-> (exists b, b ∈ infos /\ mmd_bone_name (bone_info b) = k)
      \/ (exists o, overrides = Some o /\ k ∈ o.*1).
Proof.
  unfold mmd_bone_name2pose_bone_names, dict_keys.
  assert (forall acc : list (string * option string),
             k ∈ (foldl (fun acc b =>
                           dict_set (mmd_bone_name (bone_info b)) (pose_bone_name b) acc)
                        acc infos).*1
             <-> k ∈ acc.*1 \/ exists b, b ∈ infos /\ mmd_bone_name (bone_info b) = k)
    as Hfold.
  { induction infos as [|b infos IH]; intros acc; simpl.
    - split; [tauto|]. intros [H|(b & Hb & _)]; [exact H|].
      apply elem_of_nil in Hb as [].
    - rewrite IH, dict_set_keys. split.
      + intros [[->|H]|(b' & Hb' & Hk)].
        * right. exists b. split; [apply elem_of_cons; tauto|reflexivity].
        * tauto.
        * right. exists b'. split; [apply elem_of_cons; tauto|exact Hk].
      + intros [H|(b' & Hb' & Hk)]; [tauto|].
        apply elem_of_cons in Hb' as [->|Hb']; [left; left; congruence|].
        right. exists b'. tauto. }
  destruct overrides as [o|].
  - rewrite dict_update_keys, Hfold, <- list_fmap_compose. simpl.
    rewrite elem_of_nil. split.
    + intros [[[]|H]|H]; [tauto|]. right. exists o. tauto.
    + intros [H|(o' & [= <-] & H)]; tauto.
  - rewrite Hfold. simpl. rewrite elem_of_nil. split.
    + intros [[]|H]. tauto.
    + intros [H|(o & [=] & _)]. tauto.
Qed.

(** ** Unique names *)

Lemma unique_name_free (suffix rename : list string -> string -> string)
    (taken : list string) (name : string) :
  fits name = true -> name ∉ taken ->
  unique_name suffix rename taken name = name.
Proof.
  intros Hfits Hfree. unfold unique_name. rewrite Hfits.
  destruct (existsb (String.eqb name) taken) eqn:E; [|reflexivity].
  exfalso. apply existsb_exists in E as (name' & Hin & Heq).
  apply String.eqb_eq in Heq as <-. apply Hfree, list_elem_of_In, Hin.
Qed.

Lemma unique_name_plain (suffix rename : list string -> string -> string)
    (taken : list string) (name : string) :
  fits name = true -> plain name = true ->
  unique_name suffix rename taken name
  = if existsb (String.eqb name) taken then name +:+ suffix taken name else name.
Proof.
  intros Hfits Hplain. unfold unique_name. rewrite Hfits, Hplain.
  destruct (existsb (String.eqb name) taken); reflexivity.
Qed.

Lemma existsb_eqb_elem (name : string) (taken : list string) :
  existsb (String.eqb name) taken = true <-> name ∈ taken.
Proof.
  rewrite existsb_exists, list_elem_of_In. split.
  - intros (name' & Hin & Heq). apply String.eqb_eq in Heq as <-. exact Hin.
  - intros Hin. exists name. split; [exact Hin|apply String.eqb_refl].
Qed.

Lemma string_app_empty_r (s : string) : s +:+ "" = s.
Proof.
  induction s as [|c s IH]; [reflexivity|].
  change (String c (s +:+ "") = String c s). rewrite IH. reflexivity.
Qed.

Lemma prefix_app (p s t : string) :
  String.prefix p s = true -> String.prefix p (s +:+ t) = true.
Proof.
  revert p. induction s as [|c' s IH]; intros [|c p].
  - intros _. destruct t; reflexivity.
  - discriminate.
  - reflexivity.
  - change (String.prefix (String c p) (String c' s) = true ->
            String.prefix (String c p) (String c' (s +:+ t)) = true).
    simpl. destruct (Ascii.ascii_dec c c'); [apply IH|discriminate].
Qed.

(** A plain name that fits is kept when it is free and extended when it
    is taken: either way the result starts with the name. *)
Lemma unique_name_extends (suffix rename : list string -> string -> string)
    (taken : list string) (name : string) :
  fits name = true -> plain name = true ->
  (name ∉ taken -> unique_name suffix rename taken name = name)
  /\ exists s, unique_name suffix rename taken name = name +:+ s.
Proof.
  intros Hfits Hplain. split; [apply unique_name_free, Hfits|].
  rewrite unique_name_plain by assumption.
  destruct (existsb (String.eqb name) taken); [eauto|].
  exists "". symmetry. apply string_app_empty_r.
Qed.

(** ** The bone catalog *)

Lemma strip_prefix_spec (p s rest : string) :
  strip_prefix p s = Some rest <-> s = p +:+ rest.
Proof.
  revert s. induction p as [|a p IH]; intros s; simpl.
  - split; [intros [= ->]; reflexivity | intros ->; reflexivity].
  - destruct s as [|b s]; [split; discriminate|].
    destruct (Ascii.eqb_spec a b) as [->|Hne].
    + rewrite IH. split; [intros ->; reflexivity | intros [= ->]; reflexivity].
    + split; [discriminate | intros [= <- _]; contradiction].
Qed.

Lemma distinct_NoDup (l : list string) : distinct l = true -> NoDup l.
Proof.
  induction l as [|s l IH]; simpl; [intros _; apply NoDup_nil_2|].
  intros H. apply andb_prop in H as [Hs Hl]. apply NoDup_cons. split; [|apply IH, Hl].
  intros Hin. apply negb_true_iff in Hs.
  assert (existsb (String.eqb s) l = true) as E; [|congruence].
  apply existsb_exists. exists s. split; [apply list_elem_of_In, Hin|].
  apply String.eqb_refl.
Qed.

Lemma MMDBoneInfo_members_complete (e : MMDBoneInfo) : e ∈ MMDBoneInfo_members.
Proof.
  unfold MMDBoneInfo_members.
  destruct e; repeat first [apply list_elem_of_here | apply list_elem_of_further].
Qed.

Lemma mirrored_all : forallb mirrored MMDBoneInfo_members = true.
Proof. vm_compute. reflexivity. Qed.

(** C9: the standard names of the catalog are pairwise distinct, and every
    entry whose name starts with the left marker has an entry whose name is
    the same with the right marker in its place and whose role is the
    same. *)
Theorem catalog_unique_and_symmetric :
  NoDup (mmd_bone_name <$> MMDBoneInfo_members)
  /\ (forall e1 e2 : MMDBoneInfo, mmd_bone_name e1 = mmd_bone_name e2 -> e1 = e2)
  /\ (forall (left : MMDBoneInfo) (rest : string),
        mmd_bone_name left = left_marker +:+ rest ->
        exists right : MMDBoneInfo,
          mmd_bone_name right = right_marker +:+ rest
          /\ bone_type right = bone_type left).
Proof.
  assert (NoDup (mmd_bone_name <$> MMDBoneInfo_members)) as Hnodup.
  { apply distinct_NoDup. vm_compute. reflexivity. }
  split; [exact Hnodup|]. split.
  - intros e1 e2 Heq.
    destruct (proj1 (list_elem_of_lookup _ _) (MMDBoneInfo_members_complete e1)) as [i Hi].
    destruct (proj1 (list_elem_of_lookup _ _) (MMDBoneInfo_members_complete e2)) as [j Hj].
    assert (i = j) as ->; [|congruence].
    apply (proj1 (NoDup_alt _) Hnodup i j (mmd_bone_name e1)).
    + rewrite list_lookup_fmap, Hi. reflexivity.
    + rewrite list_lookup_fmap, Hj, Heq. reflexivity.
  - intros left rest Hleft.
    pose proof mirrored_all as Hall. rewrite forallb_forall in Hall.
    specialize (Hall left (proj1 (list_elem_of_In _ _) (MMDBoneInfo_members_complete left))).
    unfold mirrored in Hall.
    apply strip_prefix_spec in Hleft. rewrite Hleft in Hall.
    apply existsb_exists in Hall as (right & _ & Hright).
    apply andb_prop in Hright as [Hname Hrole].
    apply String.eqb_eq in Hname. apply bool_decide_eq_true in Hrole.
    exists right. split; assumption.
Qed.

(** ** [to_bone_suffix] *)

Lemma side_letter_not_newline (c : ascii) :
  is_side_letter c = true -> Ascii.eqb c "010" = false.
Proof.
  unfold is_side_letter. intros H.
  destruct (Ascii.eqb_spec c "010") as [->|]; [discriminate H | reflexivity].
Qed.

(** A match further right leaves no room for a match at the head. *)
Lemma no_earlier_match (stem : string) (sep letter : ascii) (tail : string) :
  is_side_letter letter = true ->
  match stem +:+ String sep (String letter tail) with
  | String _ rest => at_end rest = false
  | EmptyString => True
  end.
Proof.
  intros Hl. destruct stem as [|a stem]; simpl.
  - destruct tail as [|b tail]; simpl; [|reflexivity].
    apply side_letter_not_newline, Hl.
  - destruct stem as [|b stem]; simpl; [reflexivity|].
    destruct stem; reflexivity.
Qed.

Lemma re_search_side_some (s : string) (c : ascii) :
  re_search_side s = Some c <->
  exists stem sep tail,
    s = stem +:+ String sep (String c tail)
    /\ is_separator sep = true /\ is_side_letter c = true /\ at_end tail = true.
Proof.
  split.
  - induction s as [|a s IH]; simpl; [discriminate|].
    destruct s as [|b t]; [discriminate|].
    destruct (is_separator a && is_side_letter b && at_end t) eqn:E.
    + intros [= <-]. apply andb_prop in E as [E Ht]. apply andb_prop in E as [Ha Hb].
      exists EmptyString, a, t. auto.
    + intros H. destruct (IH H) as (stem & sep & tail & -> & Hs & Hc & Ht).
      exists (String a stem), sep, tail. auto.
  - intros (stem & sep & tail & -> & Hs & Hc & Ht).
    induction stem as [|a stem IH].
    + simpl. rewrite Hs, Hc, Ht. reflexivity.
    + change (String a stem +:+ String sep (String c tail))
        with (String a (stem +:+ String sep (String c tail))).
      pose proof (no_earlier_match stem sep c tail Hc) as Hno.
      simpl. destruct (stem +:+ String sep (String c tail)) as [|b t] eqn:E.
      * destruct stem; discriminate E.
      * rewrite Hno, andb_false_r. exact IH.
Qed.

Lemma left_letter_iff (c : ascii) :
  c ∈ left_letters <-> (Ascii.eqb c "l" || Ascii.eqb c "L") = true.
Proof.
  unfold left_letters. rewrite orb_true_iff, !Ascii.eqb_eq.
  rewrite !elem_of_cons, elem_of_nil. tauto.
Qed.

Lemma right_letter_iff (c : ascii) :
  c ∈ right_letters <->
  is_side_letter c = true /\ (Ascii.eqb c "l" || Ascii.eqb c "L") = false.
Proof.
  unfold right_letters, is_side_letter. split.
  - rewrite !elem_of_cons, elem_of_nil.
    intros [-> | [-> | []]]; split; reflexivity.
  - intros [H1 H2]. rewrite H2 in H1. simpl in H1.
    rewrite orb_true_iff, !Ascii.eqb_eq in H1.
    rewrite !elem_of_cons, elem_of_nil. tauto.
Qed.

Lemma side_letter_iff (c : ascii) :
  c ∈ left_letters ++ right_letters <-> is_side_letter c = true.
Proof.
  rewrite elem_of_app, left_letter_iff, right_letter_iff. unfold is_side_letter.
  destruct (Ascii.eqb c "l" || Ascii.eqb c "L"); simpl; intuition congruence.
Qed.

Lemma to_bone_suffix_left (name : string) :
  to_bone_suffix name = Some "L" <-> ends_with_marker left_letters name.
Proof.
  unfold to_bone_suffix, ends_with_marker. split.
  - destruct (re_search_side name) as [c|] eqn:E; [|discriminate].
    destruct (Ascii.eqb c "l" || Ascii.eqb c "L") eqn:Hc; [intros _|discriminate].
    apply re_search_side_some in E as (stem & sep & tail & -> & Hs & _ & Ht).
    exists stem, sep, c, tail. rewrite left_letter_iff. auto.
  - intros (stem & sep & c & tail & -> & Hs & Hc & Ht).
    assert (re_search_side (stem +:+ String sep (String c tail)) = Some c) as ->.
    { apply re_search_side_some. exists stem, sep, tail.
      repeat split; try assumption.
      apply side_letter_iff, elem_of_app. left. exact Hc. }
    apply left_letter_iff in Hc. rewrite Hc. reflexivity.
Qed.

Lemma to_bone_suffix_right (name : string) :
  to_bone_suffix name = Some "R" <-> ends_with_marker right_letters name.
Proof.
  unfold to_bone_suffix, ends_with_marker. split.
  - destruct (re_search_side name) as [c|] eqn:E; [|discriminate].
    destruct (Ascii.eqb c "l" || Ascii.eqb c "L") eqn:Hc; [discriminate|intros _].
    apply re_search_side_some in E as (stem & sep & tail & -> & Hs & Hl & Ht).
    exists stem, sep, c, tail. rewrite right_letter_iff. auto.
  - intros (stem & sep & c & tail & -> & Hs & Hc & Ht).
    apply right_letter_iff in Hc as [Hl Hc].
    assert (re_search_side (stem +:+ String sep (String c tail)) = Some c) as ->.
    { apply re_search_side_some. exists stem, sep, tail. auto. }
    rewrite Hc. reflexivity.
Qed.

Lemma to_bone_suffix_none (name : string) :
  to_bone_suffix name = None <->
  ~ ends_with_marker (left_letters ++ right_letters) name.
Proof.
  unfold to_bone_suffix, ends_with_marker. split.
  - destruct (re_search_side name) as [c|] eqn:E.
    { destruct (Ascii.eqb c "l" || Ascii.eqb c "L"); discriminate. }
    intros _ (stem & sep & c & tail & Hn & Hs & Hc & Ht).
    apply side_letter_iff in Hc.
    assert (re_search_side name = Some c) as E'.
    { apply re_search_side_some. exists stem, sep, tail. auto. }
    congruence.
  - intros Hno. destruct (re_search_side name) as [c|] eqn:E; [|reflexivity].
    exfalso. apply Hno.
    apply re_search_side_some in E as (stem & sep & tail & -> & Hs & Hl & Ht).
    exists stem, sep, c, tail. rewrite side_letter_iff. auto.
Qed.

(** C4 (as amended): [to_bone_suffix] answers ['L'] exactly for the names
    that end with a separator ([_] or [.]) followed by [l] or [L], ['R']
    exactly for those that end with a separator followed by [r] or [R], and
    [None] exactly when there is no such ending; the separator is
    required, and the end of the name is Python's [$] (a final newline may
    follow).  In particular ['leftArm_L'] gives ['L'], ['leftArm.r'] gives
    ['R'] and ['Spine'] gives [None]. *)
Theorem to_bone_suffix_marker :
  (forall name, to_bone_suffix name = Some "L" <-> ends_with_marker left_letters name)
  /\ (forall name, to_bone_suffix name = Some "R" <-> ends_with_marker right_letters name)
  /\ (forall name, to_bone_suffix name = None
                   <-> ~ ends_with_marker (left_letters ++ right_letters) name)
  /\ to_bone_suffix "leftArm_L" = Some "L"
  /\ to_bone_suffix "leftArm.r" = Some "R"
  /\ to_bone_suffix "Spine" = None.
Proof.
  split; [exact to_bone_suffix_left|].
  split; [exact to_bone_suffix_right|].
  split; [exact to_bone_suffix_none|].
  repeat split.
Qed.

(** C4 as stated fails: with the separator read as optional, ['ArmL'] ends
    with a left marker, yet [to_bone_suffix] answers [None] for it. *)
Lemma to_bone_suffix_needs_separator :
  spec_side_suffix "ArmL" = Some "L" /\ to_bone_suffix "ArmL" = None.
Proof. split; reflexivity. Qed.

(** ** [to_angle] *)

Lemma real_atan2_diagonal : real_atan2 1 1 = (PI / 4)%R.
Proof.
  unfold real_atan2. destruct (Rlt_dec 0 1) as [_|Hn]; [|exfalso; apply Hn; lra].
  replace (1 / 1)%R with 1%R by lra. apply atan_1.
Qed.

(** C5: for the planes ['XZ'], ['XY'] and ['YZ'], [to_angle] is the
    two-argument arctangent of the vector's two coordinates in that plane
    (with real arithmetic, [(1, 0, 1)] in ['XZ'] gives [atan2(1, 1)], which is
    [PI / 4]); for any other plane tag, such as ['ZZ'], it raises
    [ValueError], and it raises only then. *)
Theorem to_angle_planes :
  forall (float : Type) (atan2 : float -> float -> float) (vector : Vector float),
    to_angle atan2 vector "XZ" = Ok (atan2 (z vector) (x vector))
    /\ to_angle atan2 vector "XY" = Ok (atan2 (y vector) (x vector))
    /\ to_angle atan2 vector "YZ" = Ok (atan2 (z vector) (y vector))
    /\ (forall plane,
          raises (to_angle atan2 vector plane)
          <-> plane <> "XY" /\ plane <> "XZ" /\ plane <> "YZ")
    /\ (forall plane,
          raises (to_angle atan2 vector plane) ->
          exists message, to_angle atan2 vector plane = Raise (ValueError message))
    /\ raises (to_angle atan2 vector "ZZ")
    /\ to_angle real_atan2 (Build_Vector 1 0 1)%R "XZ" = Ok (real_atan2 1 1)
    /\ real_atan2 1 1 = (PI / 4)%R.
Proof.
  intros float atan2 vector.
  repeat match goal with |- _ /\ _ => split end;
    try reflexivity; try exact I; try exact real_atan2_diagonal.
  - intros plane. unfold to_angle.
    destruct (String.eqb_spec plane "XZ") as [->|Hxz].
    { simpl. split; [intros [] | intros (_ & H & _); congruence]. }
    destruct (String.eqb_spec plane "XY") as [->|Hxy].
    { simpl. split; [intros [] | intros (H & _); congruence]. }
    destruct (String.eqb_spec plane "YZ") as [->|Hyz].
    { simpl. split; [intros [] | intros (_ & _ & H); congruence]. }
    simpl. tauto.
  - intros plane. unfold to_angle.
    destruct (String.eqb plane "XZ"); [intros []|].
    destruct (String.eqb plane "XY"); [intros []|].
    destruct (String.eqb plane "YZ"); [intros []|].
    intros _. eexists. reflexivity.
Qed.

Section HostProperties.
Context {float : Type} {host : @Host float}.

#[local] Abbreviation Value := (@Value float).
#[local] Abbreviation Kwargs := (@Kwargs float).
#[local] Abbreviation Constraint := (@Constraint float).
#[local] Abbreviation PoseBone := (@PoseBone float).
#[local] Abbreviation RichArmatureObject := (@RichArmatureObject float).

(** ** [remove_constraints] *)

(** Loop invariant: the nodes before the cursor are the ones kept so
    far, the nodes from the cursor on are still to be visited. *)
Lemma remove_prefixed_invariant (todo kept : list Constraint) (steps : nat) :
  length todo <= steps ->
  remove_prefixed steps (length kept) (kept ++ todo)
  = kept ++ List.filter user_authored todo.
Proof.
  revert kept steps. induction todo as [|c todo IH]; intros kept steps Hsteps.
  - destruct steps as [|steps]; simpl; [reflexivity|].
    rewrite lookup_ge_None_2; [reflexivity|]. rewrite length_app. simpl. lia.
  - destruct steps as [|steps]; simpl in Hsteps; [lia|].
    simpl. rewrite list_lookup_middle by reflexivity.
    fold (engine_authored c). fold (user_authored c).
    destruct (user_authored c) eqn:Hc.
    + replace (kept ++ c :: todo) with ((kept ++ [c]) ++ todo)
        by (rewrite <- app_assoc; reflexivity).
      replace (S (length kept)) with (length (kept ++ [c]))
        by (rewrite length_app; simpl; lia).
      rewrite IH by lia. rewrite <- app_assoc. reflexivity.
    + rewrite delete_middle. apply IH. lia.
Qed.

Lemma remove_prefixed_filter (stack : list Constraint) (steps : nat) :
  length stack <= steps ->
  remove_prefixed steps 0 stack = List.filter user_authored stack.
Proof. intros H. apply (remove_prefixed_invariant stack [] steps H). Qed.

Lemma filter_user_authored_id (stack : list Constraint) :
  Forall (fun c => engine_authored c = false) stack ->
  List.filter user_authored stack = stack.
Proof.
  induction 1 as [|c stack Hc _ IH]; simpl; [reflexivity|].
  unfold user_authored at 1. rewrite Hc. simpl. rewrite IH. reflexivity.
Qed.

Lemma with_constraints_same (b : PoseBone) : with_constraints b (constraints b) = b.
Proof. destruct b; reflexivity. Qed.

Lemma remove_constraints_lookup (bones : gmap string PoseBone) (k : string) :
  remove_constraints bones !! k
  = (fun b => with_constraints b (List.filter user_authored (constraints b)))
      <$> bones !! k.
Proof.
  unfold remove_constraints. rewrite lookup_fmap.
  destruct (bones !! k) as [b|]; simpl; [|reflexivity].
  rewrite remove_prefixed_filter by lia. reflexivity.
Qed.

(** C1: on every bone of the map, [remove_constraints] leaves exactly
    the constraints whose name does not start with ['mmd_uuunyaa_'], in
    their order, and touches nothing else of the bone: every constraint
    with the prefix is gone, none without it is; bones without a prefixed
    constraint, and so a map of such bones, come back unchanged. *)
Theorem remove_constraints_prefixed (bones : gmap string PoseBone) :
  (forall k,
      remove_constraints bones !! k
      = (fun b => with_constraints b (List.filter user_authored (constraints b)))
          <$> bones !! k)
  /\ (forall k b,
        bones !! k = Some b ->
        exists b',
          remove_constraints bones !! k = Some b'
          /\ mmd_bone_name_j b' = mmd_bone_name_j b
          /\ custom_properties b' = custom_properties b
          /\ (forall c, c ∈ constraints b' ->
                        c ∈ constraints b /\ engine_authored c = false)
          /\ (forall c, c ∈ constraints b -> engine_authored c = false ->
                        c ∈ constraints b')
          /\ (forall c, c ∈ constraints b -> engine_authored c = true ->
                        c ∉ constraints b'))
  /\ ((forall k b, bones !! k = Some b ->
                   Forall (fun c => engine_authored c = false) (constraints b)) ->
      remove_constraints bones = bones).
Proof.
  split; [apply remove_constraints_lookup|]. split.
  - intros k b Hb. eexists. rewrite remove_constraints_lookup, Hb. simpl.
    split; [reflexivity|]. split; [reflexivity|]. split; [reflexivity|].
    assert (forall c, c ∈ List.filter user_authored (constraints b)
                      <-> c ∈ constraints b /\ engine_authored c = false) as Hin.
    { intros c. rewrite !list_elem_of_In, filter_In. unfold user_authored.
      rewrite negb_true_iff. reflexivity. }
    split; [intros c Hc; apply Hin, Hc|].
    split; [intros c Hc Hu; apply Hin; auto|].
    intros c _ He Hc. apply Hin in Hc as [_ Hc]. congruence.
  - intros Hnone. apply map_eq. intros k. rewrite remove_constraints_lookup.
    destruct (bones !! k) as [b|] eqn:Hb; simpl; [|reflexivity].
    rewrite filter_user_authored_id by (eapply Hnone, Hb).
    rewrite with_constraints_same. reflexivity.
Qed.

(** ** Influence drivers *)

Lemma no_driver_after_filter (path : string) (ds : list (string * Driver)) :
  existsb (fun d => String.eqb d.1 path)
          (List.filter (fun d => negb (String.eqb d.1 path)) ds) = false.
Proof.
  induction ds as [|[p d] ds IH]; simpl; [reflexivity|].
  destruct (String.eqb p path) eqn:E; simpl; [exact IH|].
  rewrite E. exact IH.
Qed.

Lemma update_driver_last (path : string) (f : Driver -> Driver)
    (ds : list (string * Driver)) (d : Driver) :
  existsb (fun d => String.eqb d.1 path) ds = false ->
  update_driver path f (ds ++ [(path, d)]) = ds ++ [(path, f d)].
Proof.
  induction ds as [|[p d'] ds IH]; simpl.
  - intros _. rewrite String.eqb_refl. reflexivity.
  - intros H. apply orb_false_elim in H as [Hp Hds].
    rewrite Hp, IH by exact Hds. reflexivity.
Qed.

Lemma filter_path_last (path : string) (ds : list (string * Driver)) (d : Driver) :
  existsb (fun d => String.eqb d.1 path) ds = false ->
  List.filter (fun d => String.eqb d.1 path) (ds ++ [(path, d)]) = [(path, d)].
Proof.
  induction ds as [|[p d'] ds IH]; simpl.
  - intros _. rewrite String.eqb_refl. reflexivity.
  - intros H. apply orb_false_elim in H as [Hp Hds].
    rewrite Hp. apply IH, Hds.
Qed.

(** On a constraint without a driver on its influence, one call attaches
    one driver with one variable. *)
Lemma add_influence_driver_fresh (c : Constraint) (target : Object)
    (data_path : string) (invert_influence : bool) :
  has_driver "influence" c = false ->
  con_drivers (add_influence_driver c target data_path invert_influence)
  = con_drivers c ++ [("influence", influence_driver target data_path invert_influence)].
Proof.
  intros Hno. unfold add_influence_driver, add_driver, driver_add.
  rewrite Hno. simpl. apply update_driver_last. exact Hno.
Qed.

Lemma update_influence_driver_drivers (c : Constraint) (target : Object)
    (data_path : string) (invert_influence : bool) :
  con_drivers (update_influence_driver c target data_path invert_influence)
  = List.filter (fun d => negb (String.eqb d.1 "influence")) (con_drivers c)
      ++ [("influence", influence_driver target data_path invert_influence)].
Proof.
  unfold update_influence_driver.
  rewrite add_influence_driver_fresh; [reflexivity|].
  apply no_driver_after_filter.
Qed.

(** C3: after [update_influence_driver], whatever calls of
    [add_influence_driver] and [update_influence_driver] came before on
    the constraint, exactly one driver is attached to its influence; it
    has the single variable bound to the given target and data path, and
    its expression evaluates to the number found there, or to one minus
    that number when [invert_influence] is set. *)
Theorem update_influence_driver_single
    (float_one : float) (float_sub : float -> float -> float)
    (lookup_path : Object -> string -> option float)
    (c : Constraint) (history : list InfluenceCall)
    (target : Object) (data_path : string) (invert_influence : bool) :
  exists d,
    drivers_of "influence"
      (update_influence_driver (run_calls c history) target data_path invert_influence)
    = [d]
    /\ variables d = [influence_variable target data_path]
    /\ expression d = (if invert_influence then "1-" else "+") +:+ "mmd_uuunyaa_influence"
    /\ driver_value float_one float_sub lookup_path d
       = if invert_influence
         then float_sub float_one <$> lookup_path target data_path
         else lookup_path target data_path.
Proof.
  exists (influence_driver target data_path invert_influence).
  split.
  - unfold drivers_of. rewrite update_influence_driver_drivers.
    rewrite filter_path_last by apply no_driver_after_filter. reflexivity.
  - split; [reflexivity|]. split; [reflexivity|].
    destruct invert_influence; reflexivity.
Qed.

(** ** Constraint helpers *)

Lemma bind_kwargs_ok (params : list string) (explicit extra : Kwargs) :
  Forall (fun key => key ∉ params ++ explicit.*1) extra.*1 ->
  bind_kwargs params explicit extra = Ok (explicit ++ extra).
Proof.
  intros Hfree. unfold bind_kwargs.
  destruct (List.find _ extra) as [kv|] eqn:E; [|reflexivity].
  apply find_some in E as [Hin Hdec]. apply bool_decide_eq_true in Hdec.
  rewrite Forall_forall in Hfree. exfalso. apply (Hfree kv.1); [|exact Hdec].
  apply list_elem_of_fmap. exists kv. split; [reflexivity|].
  apply list_elem_of_In, Hin.
Qed.

Lemma host_takes_cons (owner : PoseBone) (kind : string) (kv : string * Value)
    (kwargs : Kwargs) :
  host_takes owner kind (kv :: kwargs) -> host_takes owner kind kwargs.
Proof.
  intros Hhost c key value Hkind Hin. apply Hhost; [exact Hkind|].
  apply elem_of_cons. right. exact Hin.
Qed.

Lemma setattr_all_spec (owner : PoseBone) (taken : list string)
    (kwargs : Kwargs) (c : Constraint) :
  NoDup kwargs.*1 ->
  Forall (fun key => key <> "type" /\ key <> "name") kwargs.*1 ->
  host_takes owner (con_type c) kwargs ->
  exists c',
    setattr_all owner taken c kwargs = Ok c'
    /\ con_type c' = con_type c
    /\ con_name c' = con_name c
    /\ con_drivers c' = con_drivers c
    /\ (forall key value, (key, value) ∈ kwargs -> con_fields c' !! key = Some value)
    /\ (forall key, key ∉ kwargs.*1 -> con_fields c' !! key = con_fields c !! key).
Proof.
  revert c. induction kwargs as [|[key value] kwargs IH]; intros c Hnodup Hkeys Hhost.
  - exists c. simpl. repeat split; try reflexivity.
    intros key value Hin. apply elem_of_nil in Hin as [].
  - simpl in Hnodup, Hkeys. apply NoDup_cons in Hnodup as [Hfresh Hnodup].
    apply Forall_cons in Hkeys as [[Htype Hname] Hkeys].
    simpl. unfold constraint_setattr.
    destruct (String.eqb_spec key "type") as [|_]; [contradiction|].
    destruct (String.eqb_spec key "name") as [|_]; [contradiction|].
    rewrite (Hhost c key value eq_refl) by (apply elem_of_cons; left; reflexivity).
    simpl.
    match goal with |- context [setattr_all owner taken ?c1 kwargs] =>
      destruct (IH c1 Hnodup Hkeys) as (c' & -> & Ht & Hn & Hd & Hset & Hother);
        [exact (host_takes_cons _ _ _ _ Hhost)|]
    end.
    exists c'. simpl in *. repeat split; try assumption.
    + intros key' value' Hin. apply elem_of_cons in Hin as [[= -> ->]|Hin].
      * rewrite Hother by exact Hfresh. apply lookup_insert_eq.
      * apply Hset, Hin.
    + intros key' Hnot. apply not_elem_of_cons in Hnot as [Hne Hnot].
      rewrite Hother by exact Hnot. apply lookup_insert_ne. congruence.
Qed.

Lemma add_influence_driver_fields (c : Constraint) (target : Object)
    (data_path : string) (invert_influence : bool) :
  con_type (add_influence_driver c target data_path invert_influence) = con_type c
  /\ con_name (add_influence_driver c target data_path invert_influence) = con_name c
  /\ con_fields (add_influence_driver c target data_path invert_influence) = con_fields c.
Proof.
  unfold add_influence_driver, add_driver, driver_add.
  destruct (has_driver "influence" c); repeat split.
Qed.

(** The common shape of the five helpers. *)
Lemma authored_by_helper (pose_bone : PoseBone) (kind name : string)
    (explicit extra : Kwargs) (target : Object) (data_path : string)
    (invert_influence : bool) :
  fits name = true -> plain name = true ->
  NoDup (explicit ++ extra).*1 ->
  Forall (fun key => key <> "type" /\ key <> "name") (explicit ++ extra).*1 ->
  Forall (fun key => key ∉ add_constraint_params ++ explicit.*1) extra.*1 ->
  host_takes pose_bone kind (explicit ++ extra) ->
  authored pose_bone kind name (explicit ++ extra) target data_path invert_influence
    (kwargs ← bind_kwargs add_constraint_params explicit extra;
     constraint ← add_constraint pose_bone kind name kwargs;
     Ok (on_constraint
           (fun c => add_influence_driver c target data_path invert_influence)
           constraint)).
Proof.
  intros Hfits Hplain Hnodup Hkeys Hfree Hhost. rewrite bind_kwargs_ok by exact Hfree.
  simpl. unfold add_constraint. simpl.
  set (taken := con_name <$> constraints pose_bone).
  set (c0 := {| con_type := kind;
                con_name := unique_name constraint_suffix constraint_rename taken name;
                con_fields := ∅; con_drivers := [] |}).
  destruct (setattr_all_spec pose_bone taken (explicit ++ extra) c0 Hnodup Hkeys Hhost)
    as (c' & -> & Ht & Hn & Hd & Hset & Hother).
  simpl. unfold on_constraint. simpl.
  replace (length (constraints pose_bone))
    with (length (constraints pose_bone) + 0) at 1 by lia.
  rewrite alter_app_r. simpl.
  destruct (add_influence_driver_fields c' target data_path invert_influence)
    as (Ht' & Hn' & Hf').
  eexists _, _, _. split; [reflexivity|]. simpl.
  split; [reflexivity|]. split; [reflexivity|]. split; [reflexivity|].
  split; [apply list_lookup_middle; reflexivity|].
  split; [rewrite Ht'; exact Ht|].
  split; [unfold named_after; rewrite Hn', Hn; simpl;
          apply unique_name_extends; assumption|].
  split; [intros key value Hin; rewrite Hf'; apply Hset, Hin|].
  split; [intros key Hnot; rewrite Hf', Hother by exact Hnot; apply lookup_empty|].
  rewrite add_influence_driver_fresh; unfold has_driver; rewrite Hd; reflexivity.
Qed.

Lemma admissible_split (explicit : Kwargs) (extra : Kwargs) :
  NoDup explicit.*1 ->
  Forall (fun key => key <> "type" /\ key <> "name") explicit.*1 ->
  admissible_kwargs explicit.*1 extra ->
  NoDup (explicit ++ extra).*1
  /\ Forall (fun key => key <> "type" /\ key <> "name") (explicit ++ extra).*1
  /\ Forall (fun key => key ∉ add_constraint_params ++ explicit.*1) extra.*1.
Proof.
  intros Hnodup Hkeys [Hextra Hfree]. rewrite fmap_app.
  rewrite Forall_forall in Hfree. split; [|split].
  - apply NoDup_app. split; [exact Hnodup|]. split; [|exact Hextra].
    intros key Hin Hin'. apply (Hfree key Hin').
    apply elem_of_cons. right. apply elem_of_app. right. exact Hin.
  - apply Forall_app. split; [exact Hkeys|]. apply Forall_forall.
    intros key Hin. specialize (Hfree key Hin). split; intros ->; apply Hfree.
    + apply elem_of_cons. left. reflexivity.
    + apply elem_of_cons. right. apply elem_of_app. left.
      unfold add_constraint_params. rewrite !elem_of_cons. tauto.
  - apply Forall_forall. intros key Hin Hin'. apply (Hfree key Hin).
    apply elem_of_cons. right. exact Hin'.
Qed.



(** ** Control property accessors *)

(** C6: when the registry has no entry for a control, reading it gives
    [None] and writing it leaves the rig as it is, for [_get_property] and
    [_set_property] and so for every generated getter and setter; neither
    raises. *)
Theorem unregistered_control_skips
    (self : RichArmatureObject) (control_type : ControlType) :
  datapaths self !! control_type = None ->
  _get_property self control_type = Ok VNone
  /\ (forall value, _set_property self control_type value = Ok self)
  /\ (forall a, accessor_control a = control_type ->
                getter a self = Ok VNone
                /\ forall value, setter a self value = Ok self).
Proof.
  intros Hnone. unfold getter, setter, _get_property, _set_property.
  split; [rewrite Hnone; reflexivity|].
  split; [intros value; rewrite Hnone; reflexivity|].
  intros a ->. rewrite Hnone. split; reflexivity.
Qed.

(** C7 (as amended): when the registry resolves a control, its owner
    bone is in the rig and the host accepts the value for the property,
    writing the value succeeds and reading the control back from the
    resulting rig gives that value, for [_set_property] and
    [_get_property] and so for every generated accessor pair; when the
    host refuses the value, the write raises the host's exception. *)
Theorem set_then_get_property
    (self : RichArmatureObject) (control_type : ControlType)
    (datapath : DataPath) (pose_bone : PoseBone) (value : Value) :
  datapaths self !! control_type = Some datapath ->
  pose_bones self !! bone_name datapath = Some pose_bone ->
  match property_error pose_bone (prop_name datapath) value with
  | None =>
      exists self',
        _set_property self control_type value = Ok self'
        /\ _get_property self' control_type = Ok value
        /\ (forall a, accessor_control a = control_type ->
                      setter a self value = Ok self' /\ getter a self' = Ok value)
  | Some e =>
      _set_property self control_type value = Raise e
      /\ (forall a, accessor_control a = control_type ->
                    setter a self value = Raise e)
  end.
Proof.
  intros Hpath Hbone.
  destruct (property_error pose_bone (prop_name datapath) value) as [e|] eqn:Hhost.
  - assert (_set_property self control_type value = Raise e) as Hset.
    { unfold _set_property. rewrite Hpath, Hbone, Hhost. reflexivity. }
    split; [exact Hset|]. intros a <-. exact Hset.
  - assert (exists self', _set_property self control_type value = Ok self'
                          /\ _get_property self' control_type = Ok value)
      as (self' & Hset & Hget).
    { unfold _set_property, _get_property. rewrite Hpath, Hbone, Hhost.
      eexists. split; [reflexivity|]. simpl. rewrite Hpath.
      rewrite lookup_insert_eq. simpl. rewrite lookup_insert_eq. reflexivity. }
    exists self'. split; [exact Hset|]. split; [exact Hget|].
    intros a <-. split; assumption.
Qed.

(** C10 (as amended): when the registry resolves a control, reading it
    raises [KeyError] if the owner bone is not in the rig or if the bone
    lacks the property, and writing it raises [KeyError] if the owner
    bone is not in the rig; writing to a bone that exists looks up no
    property: it stores the property on the bone, whether the bone had it
    or not, unless the host refuses the value, and then it raises the
    host's exception. *)
Theorem registered_control_lookup
    (self : RichArmatureObject) (control_type : ControlType) (datapath : DataPath) :
  datapaths self !! control_type = Some datapath ->
  (pose_bones self !! bone_name datapath = None ->
   _get_property self control_type = Raise (KeyError (bone_name datapath))
   /\ forall value,
       _set_property self control_type value = Raise (KeyError (bone_name datapath)))
  /\ (forall pose_bone,
        pose_bones self !! bone_name datapath = Some pose_bone ->
        (custom_properties pose_bone !! prop_name datapath = None ->
         _get_property self control_type = Raise (KeyError (prop_name datapath)))
        /\ forall value,
            _set_property self control_type value
            = match property_error pose_bone (prop_name datapath) value with
              | Some e => Raise e
              | None =>
                  Ok (with_pose_bones self
                        (<[bone_name datapath :=
                             with_property pose_bone (prop_name datapath) value]>
                           (pose_bones self)))
              end).
Proof.
  intros Hpath. unfold _get_property, _set_property. rewrite Hpath. split.
  - intros ->. split; reflexivity.
  - intros pose_bone ->. split; [intros ->; reflexivity|reflexivity].
Qed.

(** ** [assign_mmd_bone_names] *)

Lemma assign_one_lookup (bones : gmap string PoseBone)
    (item : string * option string) (k : string) :
  assign_one bones item !! k
  = (fun b => if bool_decide (item.2 = Some k) then with_name_j b item.1 else b)
      <$> bones !! k.
Proof.
  unfold assign_one. destruct item as [m [p|]]; cbn [fst snd].
  - destruct (bones !! p) as [b|] eqn:Hp.
    + destruct (decide (p = k)) as [->|Hne].
      * rewrite lookup_insert_eq, Hp.
        rewrite bool_decide_eq_true_2 by reflexivity. reflexivity.
      * rewrite lookup_insert_ne by exact Hne.
        rewrite bool_decide_eq_false_2 by congruence.
        destruct (bones !! k); reflexivity.
    + destruct (decide (p = k)) as [->|Hne].
      * rewrite Hp. reflexivity.
      * rewrite bool_decide_eq_false_2 by congruence.
        destruct (bones !! k); reflexivity.
  - rewrite bool_decide_eq_false_2 by discriminate.
    destruct (bones !! k); reflexivity.
Qed.

Lemma assign_all_lookup (mapping : list (string * option string))
    (bones : gmap string PoseBone) (k : string) :
  foldl assign_one bones mapping !! k
  = (fun b => match last_assigned mapping k with
              | Some m => with_name_j b m
              | None => b
              end) <$> bones !! k.
Proof.
  revert bones. induction mapping as [|[m v] mapping IH]; intros bones; simpl.
  - destruct (bones !! k); reflexivity.
  - rewrite IH, assign_one_lookup. simpl.
    destruct (bones !! k) as [b|]; simpl; [|reflexivity].
    destruct (last_assigned mapping k) as [m'|];
      destruct (bool_decide (v = Some k)); reflexivity.
Qed.

Lemma last_assigned_elem (mapping : list (string * option string)) (k m : string) :
  last_assigned mapping k = Some m -> (m, Some k) ∈ mapping.
Proof.
  induction mapping as [|[m' v] mapping IH]; simpl; [discriminate|].
  destruct (last_assigned mapping k) as [m''|].
  - intros [= ->]. apply elem_of_cons. right. apply IH. reflexivity.
  - case_bool_decide as Hv; [|discriminate].
    intros [= ->]. subst v. apply elem_of_cons. left. reflexivity.
Qed.

Lemma last_assigned_is_some (mapping : list (string * option string)) (k m : string) :
  (m, Some k) ∈ mapping -> is_Some (last_assigned mapping k).
Proof.
  induction mapping as [|[m' v] mapping IH]; simpl.
  - intros H. apply elem_of_nil in H as [].
  - intros H. apply elem_of_cons in H as [[= <- <-]|H].
    + destruct (last_assigned mapping k); [eauto|].
      rewrite bool_decide_eq_true_2 by reflexivity. eauto.
    + destruct (IH H) as [m'' ->]. eauto.
Qed.

Lemma assign_mmd_bone_names_lookup (self : RichArmatureObject)
    (overrides : option (list (string * string))) (k : string) :
  let mapping := mmd_bone_name2pose_bone_names (mmd_bind_infos self) overrides in
  pose_bones (assign_mmd_bone_names self overrides) !! k
  = (fun b =>
       with_name_j b
         match last_assigned mapping k with
         | Some m => m
         | None =>
             if dict_contains (mmd_bone_name_j b) mapping then ""
             else mmd_bone_name_j b
         end) <$> pose_bones self !! k.
Proof.
  intros mapping. unfold assign_mmd_bone_names. fold mapping. simpl.
  rewrite assign_all_lookup. unfold clear_mmd_bone_names. rewrite lookup_fmap.
  destruct (pose_bones self !! k) as [b|]; simpl; [|reflexivity].
  destruct (last_assigned mapping k) as [m|].
  - destruct (dict_contains (mmd_bone_name_j b) mapping); reflexivity.
  - destruct (dict_contains (mmd_bone_name_j b) mapping); simpl; [reflexivity|].
    destruct b; reflexivity.
Qed.

(** C8 (as amended): [assign_mmd_bone_names] never fails and changes
    nothing but standard-name tags.  The names it manages are the
    catalog names of the bind infos and the keys of the overrides, and
    each is bound to the pose bone the overrides give for it, or else the
    last bind info of that name.  When it is done, a bone carries a
    managed non-empty name only if that name is bound to this very bone,
    so no tag of an earlier mapping is left and a managed non-empty name
    sits on at most one bone; a name bound to no bone, or to a bone that
    is not in the rig, sits on none; a bone of the rig that some name is
    bound to carries a name bound to it, which is that name when no other
    is bound to the bone. *)
Theorem assign_mmd_bone_names_unique (self : RichArmatureObject)
    (overrides : option (list (string * string))) :
  let mapping := mmd_bone_name2pose_bone_names (mmd_bind_infos self) overrides in
  let bound := bound_pose_bone (mmd_bind_infos self) overrides in
  let self' := assign_mmd_bone_names self overrides in
  (datapaths self' = datapaths self /\ mmd_bind_infos self' = mmd_bind_infos self)
  /\ (dict_keys mapping = insertion_order (managed_names (mmd_bind_infos self) overrides)
      /\ forall m, dict_get m mapping = bound m)
  /\ (forall k,
        pose_bones self' !! k
        = (fun b =>
             with_name_j b
               match last_assigned mapping k with
               | Some m => m
               | None =>
                   if dict_contains (mmd_bone_name_j b) mapping then ""
                   else mmd_bone_name_j b
               end) <$> pose_bones self !! k)
  /\ (forall m,
        m ∈ dict_keys mapping
        <-> (exists b, b ∈ mmd_bind_infos self /\ mmd_bone_name (bone_info b) = m)
            \/ (exists o, overrides = Some o /\ m ∈ o.*1))
  /\ (forall k b' m,
        pose_bones self' !! k = Some b' ->
        mmd_bone_name_j b' = m -> m <> "" -> m ∈ dict_keys mapping ->
        bound m = Some (Some k))
  /\ (forall k1 k2 b1 b2 m,
        pose_bones self' !! k1 = Some b1 -> pose_bones self' !! k2 = Some b2 ->
        mmd_bone_name_j b1 = m -> mmd_bone_name_j b2 = m ->
        m <> "" -> m ∈ dict_keys mapping ->
        k1 = k2)
  /\ (forall m k b',
        m <> "" ->
        bound m = Some None
        \/ (exists p, bound m = Some (Some p) /\ pose_bones self !! p = None) ->
        pose_bones self' !! k = Some b' ->
        mmd_bone_name_j b' <> m)
  /\ (forall m k,
        bound m = Some (Some k) ->
        is_Some (pose_bones self !! k) ->
        exists b' m',
          pose_bones self' !! k = Some b'
          /\ mmd_bone_name_j b' = m'
          /\ bound m' = Some (Some k)
          /\ ((forall m'', bound m'' = Some (Some k) -> m'' = m) -> m' = m)).
Proof.
  intros mapping bound self'.
  pose proof (mapping_NoDup (mmd_bind_infos self) overrides) as Hnodup.
  fold mapping in Hnodup. unfold dict_keys in Hnodup.
  destruct (mapping_bound (mmd_bind_infos self) overrides) as [Horder Hbound].
  fold mapping in Horder, Hbound. fold bound in Hbound.
  assert (forall k b' m,
             pose_bones self' !! k = Some b' ->
             mmd_bone_name_j b' = m -> m <> "" -> m ∈ dict_keys mapping ->
             bound m = Some (Some k)) as Hstale.
  { intros k b' m Hk Hm Hne Hin. unfold self' in Hk.
    rewrite assign_mmd_bone_names_lookup in Hk. fold mapping in Hk.
    destruct (pose_bones self !! k) as [b|]; simpl in Hk; [|discriminate].
    injection Hk as <-. simpl in Hm. rewrite <- Hbound.
    destruct (last_assigned mapping k) as [m'|] eqn:Hlast.
    - subst m'. apply dict_get_elem; [exact Hnodup|].
      apply last_assigned_elem, Hlast.
    - destruct (dict_contains (mmd_bone_name_j b) mapping) eqn:Hc; [congruence|].
      apply dict_contains_keys in Hin. congruence. }
  split; [split; reflexivity|].
  split; [split; [exact Horder|exact Hbound]|].
  split; [intros k; apply assign_mmd_bone_names_lookup|].
  split; [intros m; apply mapping_keys|].
  split; [exact Hstale|].
  split.
  { intros k1 k2 b1 b2 m H1 H2 Hm1 Hm2 Hne Hin.
    pose proof (Hstale k1 b1 m H1 Hm1 Hne Hin) as E1.
    pose proof (Hstale k2 b2 m H2 Hm2 Hne Hin) as E2. congruence. }
  split.
  { intros m k b' Hne Hskip Hk Hm.
    assert (m ∈ dict_keys mapping) as Hin.
    { apply dict_contains_keys. unfold dict_contains. rewrite Hbound.
      destruct Hskip as [->|(p & -> & _)]; reflexivity. }
    pose proof (Hstale k b' m Hk Hm Hne Hin) as E.
    destruct Hskip as [E'|(p & E' & Hp)]; [congruence|].
    assert (p = k) as -> by congruence.
    unfold self' in Hk. rewrite assign_mmd_bone_names_lookup, Hp in Hk.
    discriminate Hk. }
  intros m k Hm [b Hb]. unfold self'.
  rewrite assign_mmd_bone_names_lookup, Hb. fold mapping. simpl.
  rewrite <- Hbound in Hm. apply dict_get_is_elem in Hm.
  destruct (last_assigned_is_some mapping k m Hm) as [m' Hlast].
  rewrite Hlast. eexists _, m'. split; [reflexivity|]. simpl.
  split; [reflexivity|].
  assert (bound m' = Some (Some k)) as Hm'.
  { rewrite <- Hbound. apply dict_get_elem; [exact Hnodup|].
    apply last_assigned_elem, Hlast. }
  split; [exact Hm'|]. intros Honly. apply Honly, Hm'.
Qed.

End HostProperties.

(** * Further properties *)

Section MoreProperties.
Context {float : Type} {host : @Host float}.

#[local] Abbreviation Value := (@Value float).
#[local] Abbreviation Kwargs := (@Kwargs float).
#[local] Abbreviation Constraint := (@Constraint float).
#[local] Abbreviation PoseBone := (@PoseBone float).
#[local] Abbreviation RichArmatureObject := (@RichArmatureObject float).

(** ** Authoring and cleaning up *)

Lemma filter_user_authored_twice (stack : list Constraint) :
  List.filter user_authored (List.filter user_authored stack)
  = List.filter user_authored stack.
Proof.
  induction stack as [|c stack IH]; simpl; [reflexivity|].
  destruct (user_authored c) eqn:Hc; simpl; [rewrite Hc, IH|]; auto.
Qed.

(** X1: cleaning up twice is the same as cleaning up once. *)
Theorem remove_constraints_idempotent (bones : gmap string PoseBone) :
  remove_constraints (remove_constraints bones) = remove_constraints bones.
Proof.
  apply map_eq. intros k. rewrite !remove_constraints_lookup.
  destruct (bones !! k) as [b|]; simpl; [|reflexivity].
  rewrite filter_user_authored_twice. reflexivity.
Qed.

Lemma setattr_all_keeps (owner : PoseBone) (taken : list string)
    (kwargs : Kwargs) (c c' : Constraint) :
  setattr_all owner taken c kwargs = Ok c' ->
  con_type c' = con_type c
  /\ con_drivers c' = con_drivers c
  /\ ("name" ∉ kwargs.*1 -> con_name c' = con_name c).
Proof.
  revert c. induction kwargs as [|[key value] kwargs IH]; intros c; simpl.
  - intros [= <-]. auto.
  - unfold constraint_setattr.
    destruct (String.eqb_spec key "type") as [|_]; [discriminate|].
    destruct (String.eqb_spec key "name") as [->|Hname].
    + destruct value; try discriminate. simpl. intros H.
      destruct (IH _ H) as (Ht & Hd & _). simpl in *.
      split; [exact Ht|]. split; [exact Hd|].
      intros Hnot. exfalso. apply Hnot. apply elem_of_cons. left. reflexivity.
    + destruct (assign_field owner c key value) as [fields|e]; simpl; [|discriminate].
      intros H. destruct (IH _ H) as (Ht & Hd & Hn). simpl in *.
      split; [exact Ht|]. split; [exact Hd|].
      intros Hnot. apply Hn. intros Hin. apply Hnot. apply elem_of_cons. right. exact Hin.
Qed.

Lemma bind_kwargs_inv (params : list string) (explicit extra bound : Kwargs) :
  bind_kwargs params explicit extra = Ok bound ->
  bound = explicit ++ extra
  /\ forall key, key ∈ extra.*1 -> key ∉ params ++ explicit.*1.
Proof.
  unfold bind_kwargs. destruct (List.find _ extra) as [kv|] eqn:E; [discriminate|].
  intros [= <-]. split; [reflexivity|]. intros key Hin Hcol.
  apply list_elem_of_fmap in Hin as (kv & -> & Hkv).
  pose proof (find_none _ _ E kv (proj1 (list_elem_of_In _ _) Hkv)) as Hf.
  simpl in Hf. apply bool_decide_eq_false in Hf. contradiction.
Qed.

(** What every helper call that returns has done to the bone. *)
Lemma helper_success_shape (pose_bone pose_bone' : PoseBone) (kind name : string)
    (explicit extra : Kwargs) (target : Object) (data_path : string)
    (invert_influence : bool) (reference : nat) :
  fits name = true -> plain name = true ->
  "name" ∉ explicit.*1 ->
  (kwargs ← bind_kwargs add_constraint_params explicit extra;
   constraint ← add_constraint pose_bone kind name kwargs;
   Ok (on_constraint
         (fun c => add_influence_driver c target data_path invert_influence)
         constraint)) = Ok (pose_bone', reference) ->
  exists c,
    constraints pose_bone' = constraints pose_bone ++ [c]
    /\ reference = length (constraints pose_bone)
    /\ mmd_bone_name_j pose_bone' = mmd_bone_name_j pose_bone
    /\ custom_properties pose_bone' = custom_properties pose_bone
    /\ con_type c = kind
    /\ exists suffix, con_name c = name +:+ suffix.
Proof.
  intros Hfits Hplain Hexplicit.
  destruct (bind_kwargs add_constraint_params explicit extra) as [bound|e] eqn:Hbind;
    simpl; [|discriminate].
  apply bind_kwargs_inv in Hbind as [-> Hfree].
  unfold add_constraint. simpl.
  destruct (setattr_all _ _ _ (explicit ++ extra)) as [c|e] eqn:Hset; simpl;
    [|discriminate].
  unfold on_constraint. simpl.
  replace (length (constraints pose_bone))
    with (length (constraints pose_bone) + 0) at 1 by lia.
  rewrite alter_app_r. simpl. rewrite ?Nat.add_0_r.
  intros [= <- <-]. simpl.
  apply setattr_all_keeps in Hset as (Ht & _ & Hn). simpl in Ht, Hn.
  destruct (add_influence_driver_fields c target data_path invert_influence)
    as (Ht' & Hn' & _).
  eexists. split; [reflexivity|]. split; [reflexivity|].
  split; [reflexivity|]. split; [reflexivity|].
  split; [rewrite Ht'; exact Ht|]. rewrite Hn', Hn.
  - apply unique_name_extends; assumption.
  - rewrite fmap_app, elem_of_app. intros [Hin|Hin]; [contradiction|].
    apply (Hfree _ Hin). apply elem_of_app. left.
    unfold add_constraint_params. rewrite !elem_of_cons. tauto.
Qed.

Lemma helper_calls_shape
    (pose_bone pose_bone' : PoseBone) (target_object : Object)
    (subtarget space influence_data_path : string)
    (chain_count iterations : Z) (invert_influence : bool)
    (kwargs kwargs_ik : Kwargs) (reference : nat) :
  Ok (pose_bone', reference)
    ∈ helper_calls pose_bone target_object subtarget space influence_data_path
        chain_count iterations invert_influence kwargs kwargs_ik ->
  exists c,
    constraints pose_bone' = constraints pose_bone ++ [c]
    /\ reference = length (constraints pose_bone)
    /\ mmd_bone_name_j pose_bone' = mmd_bone_name_j pose_bone
    /\ custom_properties pose_bone' = custom_properties pose_bone
    /\ engine_authored c = true.
Proof.
  unfold helper_calls. rewrite !elem_of_cons, elem_of_nil.
  intros [H|[H|[H|[H|[H|[]]]]]]; symmetry in H;
    apply helper_success_shape in H as (c & H1 & H2 & H3 & H4 & _ & suffix & H6);
    try reflexivity;
    try (simpl; rewrite !elem_of_cons, elem_of_nil; intuition discriminate);
    exists c; unfold engine_authored; rewrite H6;
    (repeat split; try assumption); apply prefix_app; reflexivity.
Qed.

(** X2: whichever of the five helpers authored a constraint on a bone of
    a rig, cleaning up the rig afterwards gives what cleaning it up before
    the call gives: what a helper adds carries the prefix and goes
    again, and the helper changes nothing else. *)
Theorem helper_then_remove_constraints
    (bones : gmap string PoseBone) (k : string)
    (pose_bone pose_bone' : PoseBone) (target_object : Object)
    (subtarget space influence_data_path : string)
    (chain_count iterations : Z) (invert_influence : bool)
    (kwargs kwargs_ik : Kwargs) (reference : nat) :
  Ok (pose_bone', reference)
    ∈ helper_calls pose_bone target_object subtarget space influence_data_path
        chain_count iterations invert_influence kwargs kwargs_ik ->
  remove_constraints (<[k := pose_bone']> bones)
  = remove_constraints (<[k := pose_bone]> bones).
Proof.
  intros Hr. apply helper_calls_shape in Hr as (c & Hstack & _ & Htag & Hprops & Hc).
  apply map_eq. intros k'. rewrite !remove_constraints_lookup.
  destruct (decide (k = k')) as [->|Hne].
  - rewrite !lookup_insert_eq. simpl. f_equal.
    unfold with_constraints. rewrite Hstack, Htag, Hprops, List.filter_app. simpl.
    unfold user_authored at 2. rewrite Hc. simpl. rewrite app_nil_r. reflexivity.
  - rewrite !lookup_insert_ne by exact Hne. reflexivity.
Qed.

(** X3: helpers stack.  A second helper call on the bone the first one
    returned puts its constraint right after the first one's, and the
    reference the first call returned still points at the first
    constraint. *)
Theorem helpers_stack_in_order
    (pose_bone pose_bone1 pose_bone2 : PoseBone) (target1 target2 : Object)
    (subtarget1 space1 path1 subtarget2 space2 path2 : string)
    (chain_count1 iterations1 chain_count2 iterations2 : Z) (invert1 invert2 : bool)
    (kwargs1 kwargs_ik1 kwargs2 kwargs_ik2 : Kwargs) (reference1 reference2 : nat) :
  Ok (pose_bone1, reference1)
    ∈ helper_calls pose_bone target1 subtarget1 space1 path1
        chain_count1 iterations1 invert1 kwargs1 kwargs_ik1 ->
  Ok (pose_bone2, reference2)
    ∈ helper_calls pose_bone1 target2 subtarget2 space2 path2
        chain_count2 iterations2 invert2 kwargs2 kwargs_ik2 ->
  exists c1 c2,
    constraints pose_bone2 = constraints pose_bone ++ [c1; c2]
    /\ reference1 = length (constraints pose_bone)
    /\ reference2 = S reference1
    /\ constraints pose_bone1 !! reference1 = Some c1
    /\ constraints pose_bone2 !! reference1 = Some c1
    /\ constraints pose_bone2 !! reference2 = Some c2.
Proof.
  intros H1 H2.
  apply helper_calls_shape in H1 as (c1 & Hs1 & -> & _).
  apply helper_calls_shape in H2 as (c2 & Hs2 & -> & _).
  exists c1, c2. rewrite Hs2, Hs1, <- app_assoc. simpl.
  split; [reflexivity|]. split; [reflexivity|].
  split; [rewrite length_app; simpl; lia|].
  split; [apply list_lookup_middle; reflexivity|].
  split; [apply list_lookup_middle; reflexivity|].
  rewrite length_app. simpl.
  change (constraints pose_bone ++ c1 :: [c2])
    with (constraints pose_bone ++ [c1] ++ [c2]).
  rewrite app_assoc. apply list_lookup_middle. rewrite length_app. reflexivity.
Qed.

Lemma bind_kwargs_collision (params : list string) (explicit extra : Kwargs)
    (key : string) :
  key ∈ extra.*1 -> key ∈ params ++ explicit.*1 ->
  exists key',
    bind_kwargs params explicit extra = Raise (TypeError key')
    /\ key' ∈ extra.*1 /\ key' ∈ params ++ explicit.*1.
Proof.
  intros Hin Hcol. unfold bind_kwargs.
  destruct (List.find _ extra) as [kv|] eqn:E.
  - apply find_some in E as [Hkv Hdec]. apply bool_decide_eq_true in Hdec.
    exists kv.1. split; [reflexivity|]. split; [|exact Hdec].
    apply list_elem_of_fmap. exists kv. split; [reflexivity|].
    apply list_elem_of_In, Hkv.
  - exfalso. apply list_elem_of_fmap in Hin as (kv & -> & Hkv).
    pose proof (find_none _ _ E kv (proj1 (list_elem_of_In _ _) Hkv)) as Hf.
    simpl in Hf. apply bool_decide_eq_false in Hf. contradiction.
Qed.

(** X4: an extra keyword argument that repeats a keyword the helper
    passes itself ([target], [subtarget], the spaces, or for the IK helper
    [chain_count] and [iterations]) or a parameter of [add_constraint]
    makes the call fail with [TypeError]; no constraint is returned. *)
Theorem helper_keyword_collision
    (pose_bone : PoseBone) (target_object : Object)
    (subtarget space influence_data_path : string)
    (chain_count iterations : Z) (invert_influence : bool)
    (kwargs kwargs_ik : Kwargs) (key key_ik : string)
    (r : result (PoseBone * nat)) :
  key ∈ kwargs.*1 -> key ∈ add_constraint_params ++ copy_keywords ->
  key_ik ∈ kwargs_ik.*1 -> key_ik ∈ add_constraint_params ++ ik_keywords ->
  r ∈ helper_calls pose_bone target_object subtarget space influence_data_path
        chain_count iterations invert_influence kwargs kwargs_ik ->
  exists key', r = Raise (TypeError key') /\ key' ∈ kwargs.*1 ++ kwargs_ik.*1.
Proof.
  intros Hin Hcol Hin_ik Hcol_ik. unfold helper_calls.
  rewrite !elem_of_cons, elem_of_nil.
  unfold add_copy_transforms_constraint, add_copy_rotation_constraint,
    add_copy_location_constraint, add_copy_scale_constraint, add_ik_constraint.
  intros [->|[->|[->|[->|[->|[]]]]]];
    match goal with
    | |- context [bind_kwargs ?p ?e kwargs] =>
        destruct (bind_kwargs_collision p e kwargs key Hin Hcol) as (key' & -> & Hk & _)
    | |- context [bind_kwargs ?p ?e kwargs_ik] =>
        destruct (bind_kwargs_collision p e kwargs_ik key_ik Hin_ik Hcol_ik)
          as (key' & -> & Hk & _)
    end;
    exists key'; (split; [reflexivity|]); apply elem_of_app; auto.
Qed.

(** ** Drivers over a history of calls *)

Lemma update_driver_others (path : string) (f : Driver -> Driver)
    (ds : list (string * Driver)) :
  List.filter (fun d => negb (String.eqb d.1 path)) (update_driver path f ds)
  = List.filter (fun d => negb (String.eqb d.1 path)) ds.
Proof.
  induction ds as [|[p d] ds IH]; simpl; [reflexivity|].
  destruct (String.eqb p path) eqn:E; simpl; rewrite E; simpl; [reflexivity|].
  rewrite IH. reflexivity.
Qed.

Lemma add_influence_driver_others (c : Constraint) (target : Object)
    (data_path : string) (invert_influence : bool) :
  other_drivers (add_influence_driver c target data_path invert_influence)
  = other_drivers c.
Proof.
  unfold other_drivers, add_influence_driver, add_driver, driver_add.
  destruct (has_driver "influence" c); simpl; rewrite update_driver_others;
    [reflexivity|].
  rewrite List.filter_app. simpl. apply app_nil_r.
Qed.

Lemma update_influence_driver_others (c : Constraint) (target : Object)
    (data_path : string) (invert_influence : bool) :
  other_drivers (update_influence_driver c target data_path invert_influence)
  = other_drivers c.
Proof.
  unfold other_drivers. rewrite update_influence_driver_drivers.
  rewrite List.filter_app. simpl. rewrite app_nil_r.
  induction (con_drivers c) as [|[p d] ds IH]; simpl; [reflexivity|].
  destruct (String.eqb p "influence") eqn:E; simpl; [exact IH|].
  rewrite E. simpl. rewrite IH. reflexivity.
Qed.

Lemma update_influence_driver_fields (c : Constraint) (target : Object)
    (data_path : string) (invert_influence : bool) :
  con_type (update_influence_driver c target data_path invert_influence) = con_type c
  /\ con_name (update_influence_driver c target data_path invert_influence) = con_name c
  /\ con_fields (update_influence_driver c target data_path invert_influence)
     = con_fields c.
Proof.
  unfold update_influence_driver.
  destruct (add_influence_driver_fields (driver_remove c "influence") target data_path
              invert_influence) as (-> & -> & ->).
  repeat split.
Qed.

Lemma run_calls_frame (history : list InfluenceCall) (c : Constraint) :
  con_type (run_calls c history) = con_type c
  /\ con_name (run_calls c history) = con_name c
  /\ con_fields (run_calls c history) = con_fields c
  /\ other_drivers (run_calls c history) = other_drivers c.
Proof.
  unfold run_calls. revert c.
  induction history as [|call history IH]; intros c; cbn [foldl]; [repeat split|].
  destruct (IH (run_call c call)) as (-> & -> & -> & ->).
  destruct call as [target data_path invert|target data_path invert]; cbn [run_call].
  - destruct (add_influence_driver_fields c target data_path invert) as (-> & -> & ->).
    rewrite add_influence_driver_others. repeat split.
  - destruct (update_influence_driver_fields c target data_path invert) as (-> & -> & ->).
    rewrite update_influence_driver_others. repeat split.
Qed.

Lemma constraint_eq (c c' : Constraint) :
  con_type c = con_type c' -> con_name c = con_name c' ->
  con_fields c = con_fields c' -> con_drivers c = con_drivers c' -> c = c'.
Proof. destruct c, c'; simpl; intros -> -> -> ->; reflexivity. Qed.

(** X5: [update_influence_driver] forgets the history.  Whatever calls
    of [add_influence_driver] and [update_influence_driver] were made on a
    constraint before, updating it gives the very constraint that updating
    it at once would have given (kind, name, fields and the drivers on
    other properties included). *)
Theorem update_influence_driver_forgets
    (c : Constraint) (history : list InfluenceCall)
    (target : Object) (data_path : string) (invert_influence : bool) :
  update_influence_driver (run_calls c history) target data_path invert_influence
  = update_influence_driver c target data_path invert_influence.
Proof.
  destruct (run_calls_frame history c) as (Ht & Hn & Hf & Ho).
  destruct (update_influence_driver_fields (run_calls c history) target data_path
              invert_influence) as (Ht1 & Hn1 & Hf1).
  destruct (update_influence_driver_fields c target data_path invert_influence)
    as (Ht2 & Hn2 & Hf2).
  apply constraint_eq; [congruence|congruence|congruence|].
  rewrite !update_influence_driver_drivers.
  unfold other_drivers in Ho. rewrite Ho. reflexivity.
Qed.

Lemma add_influence_driver_existing (c : Constraint) (target : Object)
    (data_path : string) (invert_influence : bool)
    (before after : list (string * Driver)) (d : Driver) :
  con_drivers c = before ++ ("influence", d) :: after ->
  existsb (fun d => String.eqb d.1 "influence") before = false ->
  con_drivers (add_influence_driver c target data_path invert_influence)
  = before
      ++ ("influence",
          {| variables := variables_new (variables d) (influence_variable target data_path);
             expression := influence_expression invert_influence |}) :: after.
Proof.
  intros Hds Hbefore. unfold add_influence_driver, add_driver, driver_add, has_driver.
  rewrite Hds, existsb_app. simpl. rewrite orb_true_r. simpl. rewrite Hds.
  clear Hds. induction before as [|[p d'] before IH]; simpl; [reflexivity|].
  simpl in Hbefore. apply orb_false_elim in Hbefore as [Hp Hbefore].
  rewrite Hp, IH by exact Hbefore. reflexivity.
Qed.

Lemma last_cons_default {A : Type} (a : A) (l : list A) (d d' : A) :
  List.last (a :: l) d = List.last (a :: l) d'.
Proof.
  revert a. induction l as [|b l IH]; intros a; [reflexivity|].
  change (List.last (b :: l) d = List.last (b :: l) d'). apply IH.
Qed.

(** Variables joining a driver that has one of their name already: each
    gets the name with a suffix of the host. *)
Lemma variables_new_stacked (base : string) (new vars : list DriverVariable) :
  fits base = true -> plain base = true ->
  base ∈ variable_name <$> vars ->
  Forall (fun v => variable_name v = base) new ->
  exists rest,
    foldl variables_new vars new = vars ++ rest
    /\ (fun v => (variable_target v, variable_data_path v)) <$> rest
       = (fun v => (variable_target v, variable_data_path v)) <$> new
    /\ Forall (fun v => exists taken,
                  variable_name v = base +:+ variable_suffix taken base) rest.
Proof.
  intros Hfits Hplain. revert vars.
  induction new as [|v new IH]; intros vars Htaken Hnames.
  - exists []. rewrite app_nil_r. auto.
  - apply Forall_cons in Hnames as [Hv Hnames]. cbn [foldl].
    destruct (IH (variables_new vars v)) as (rest & -> & Hpaths & Hrest).
    + unfold variables_new. rewrite fmap_app. apply elem_of_app. left. exact Htaken.
    + exact Hnames.
    + unfold variables_new. rewrite <- app_assoc. eexists (_ :: rest).
      split; [reflexivity|].
      split; [cbn [fmap list_fmap]; f_equal; exact Hpaths|].
      apply Forall_cons. split; [|exact Hrest]. simpl. rewrite Hv.
      rewrite unique_name_plain by assumption.
      rewrite (proj2 (existsb_eqb_elem base (variable_name <$> vars)) Htaken). eauto.
Qed.

(** X6: [add_influence_driver] alone stacks.  Called again and again on
    a constraint that had no driver on its influence, it leaves one
    driver there, but that driver carries one variable per call, bound to
    the targets and data paths of the calls in call order, as one call of
    [add_driver] with all of them would have left them.  The first is
    named ['mmd_uuunyaa_influence']; the later ones get that name with a
    suffix of the host.  The expression is that of the last call, and it
    names the first variable: the driver follows the data path of the
    first call, inverted as the last call asked. *)
Theorem add_influence_driver_stacks
    (float_one : float) (float_sub : float -> float -> float)
    (lookup_path : Object -> string -> option float)
    (c : Constraint) (first : Object * string * bool)
    (later : list (Object * string * bool)) :
  has_driver "influence" c = false ->
  let add := fun c (call : Object * string * bool) =>
               add_influence_driver c call.1.1 call.1.2 call.2 in
  let calls := first :: later in
  exists d rest,
    drivers_of "influence" (foldl add c calls) = [d]
    /\ variables d
       = foldl variables_new []
           ((fun call => influence_variable call.1.1 call.1.2) <$> calls)
    /\ variables d = influence_variable first.1.1 first.1.2 :: rest
    /\ (fun v => (variable_target v, variable_data_path v)) <$> rest
       = (fun call => (call.1.1, call.1.2)) <$> later
    /\ Forall (fun v => exists taken,
                  variable_name v
                  = "mmd_uuunyaa_influence" +:+ variable_suffix taken "mmd_uuunyaa_influence")
              rest
    /\ expression d = influence_expression (List.last calls first).2
    /\ driver_value float_one float_sub lookup_path d
       = if (List.last calls first).2
         then float_sub float_one <$> lookup_path first.1.1 first.1.2
         else lookup_path first.1.1 first.1.2.
Proof.
  intros Hfresh add calls. unfold calls. cbn [foldl].
  assert (forall (later : list (Object * string * bool)) (c : Constraint)
                 (d : Driver) (before : list (string * Driver)) (last : Object * string * bool),
             con_drivers c = before ++ [("influence", d)] ->
             existsb (fun d => String.eqb d.1 "influence") before = false ->
             expression d = influence_expression last.2 ->
             drivers_of "influence" (foldl add c later)
             = [ {| variables :=
                      foldl variables_new (variables d)
                        ((fun call => influence_variable call.1.1 call.1.2) <$> later);
                    expression := influence_expression (List.last later last).2 |} ])
    as Hstep.
  { clear. induction later as [|call later IH]; intros c d before last Hds Hbefore Hexpr.
    - simpl. unfold drivers_of. rewrite Hds, filter_path_last by exact Hbefore.
      simpl. rewrite <- Hexpr. destruct d; reflexivity.
    - cbn [foldl fmap list_fmap].
      rewrite (IH (add c call)
                 {| variables :=
                      variables_new (variables d) (influence_variable call.1.1 call.1.2);
                    expression := influence_expression call.2 |}
                 before call).
      + cbn [variables]. destruct later as [|call' later]; [reflexivity|].
        rewrite (last_cons_default call' later call last). reflexivity.
      + unfold add. apply add_influence_driver_existing; assumption.
      + exact Hbefore.
      + reflexivity. }
  rewrite (Hstep later (add c first)
             (influence_driver first.1.1 first.1.2 first.2) (con_drivers c) first);
    [|unfold add; apply add_influence_driver_fresh, Hfresh|exact Hfresh|reflexivity].
  cbn [variables influence_driver].
  destruct (variables_new_stacked "mmd_uuunyaa_influence"
              ((fun call => influence_variable call.1.1 call.1.2) <$> later)
              [influence_variable first.1.1 first.1.2])
    as (rest & Hstack & Hpaths & Hnames); [reflexivity|reflexivity| | |].
  { apply elem_of_cons. left. reflexivity. }
  { apply Forall_fmap, Forall_true. intros call. reflexivity. }
  eexists _, rest. split; [reflexivity|]. cbn [variables expression].
  split; [reflexivity|]. split; [exact Hstack|].
  split; [rewrite Hpaths, <- list_fmap_compose; reflexivity|].
  split; [exact Hnames|].
  split; [destruct later; reflexivity|].
  unfold driver_value. cbn [variables expression]. rewrite Hstack.
  replace (List.last later first) with (List.last (first :: later) first)
    by (destruct later; reflexivity).
  destruct (List.last (first :: later) first).2; reflexivity.
Qed.

(** ** [list_constraints] and [edit_constraints] *)

Lemma list_constraints_from_spec (constraint_type : string)
    (steps cursor : nat) (stack : list Constraint) (i : nat) :
  length stack <= cursor + steps ->
  i ∈ list_constraints_from steps cursor stack constraint_type
  <-> cursor <= i
      /\ exists c, stack !! i = Some c /\ con_type c = constraint_type.
Proof.
  revert cursor. induction steps as [|steps IH]; intros cursor Hlen; simpl.
  - rewrite elem_of_nil. split; [intros []|].
    intros (Hle & c & Hc & _). apply lookup_lt_Some in Hc. lia.
  - destruct (stack !! cursor) as [c|] eqn:Hcur.
    + destruct (String.eqb_spec (con_type c) constraint_type) as [Hty|Hty].
      * rewrite elem_of_cons, IH by lia. split.
        -- intros [->|(Hle & H)]; [split; [lia|eauto]|split; [lia|exact H]].
        -- intros (Hle & H). destruct (decide (i = cursor)) as [|Hne]; [tauto|].
           right. split; [lia|exact H].
      * rewrite IH by lia. split.
        -- intros (Hle & H). split; [lia|exact H].
        -- intros (Hle & c' & Hc' & Hty'). split; [|eauto].
           destruct (decide (i = cursor)) as [->|Hne]; [|lia]. congruence.
    + rewrite elem_of_nil. split; [intros []|].
      intros (Hle & c & Hc & _). apply lookup_ge_None in Hcur.
      apply lookup_lt_Some in Hc. lia.
Qed.

(** X7: [list_constraints] yields the references of exactly the
    constraints of the bone whose kind is the one asked for. *)
Theorem list_constraints_of_kind (pose_bone : PoseBone) (constraint_type : string)
    (reference : nat) :
  reference ∈ list_constraints pose_bone constraint_type
  <-> exists c, constraints pose_bone !! reference = Some c
                /\ con_type c = constraint_type.
Proof.
  unfold list_constraints. rewrite list_constraints_from_spec by lia.
  split; [intros [_ H]; exact H|intros H; split; [lia|exact H]].
Qed.

Lemma setattr_all_store (owner : PoseBone) (taken : list string)
    (kwargs : Kwargs) (c : Constraint) :
  Forall (fun key => key <> "type" /\ key <> "name") kwargs.*1 ->
  host_takes owner (con_type c) kwargs ->
  setattr_all owner taken c kwargs = Ok (store_fields c kwargs).
Proof.
  revert c. induction kwargs as [|[key value] kwargs IH]; intros c Hkeys Hhost; simpl.
  - destruct c; reflexivity.
  - simpl in Hkeys. apply Forall_cons in Hkeys as [[Htype Hname] Hkeys].
    unfold constraint_setattr.
    destruct (String.eqb_spec key "type") as [|_]; [contradiction|].
    destruct (String.eqb_spec key "name") as [|_]; [contradiction|].
    rewrite (Hhost c key value eq_refl) by (apply elem_of_cons; left; reflexivity).
    simpl. rewrite IH; [reflexivity|exact Hkeys|].
    exact (host_takes_cons _ _ _ _ Hhost).
Qed.

Lemma edit_constraints_from_invariant (owner : PoseBone) (constraint_type : string)
    (kwargs : Kwargs) (todo done : list Constraint) (steps : nat) :
  Forall (fun key => key <> "type" /\ key <> "name") kwargs.*1 ->
  host_takes owner constraint_type kwargs ->
  length todo <= steps ->
  edit_constraints_from owner steps (length done) (done ++ todo) constraint_type kwargs
  = Ok (done ++ (edited constraint_type kwargs <$> todo)).
Proof.
  intros Hkeys Hhost. revert done steps.
  induction todo as [|c todo IH]; intros done steps Hsteps.
  - destruct steps; simpl; [reflexivity|].
    rewrite lookup_ge_None_2; [reflexivity|]. rewrite length_app. simpl. lia.
  - destruct steps as [|steps]; simpl in Hsteps; [lia|].
    simpl. rewrite list_lookup_middle by reflexivity. unfold edited at 1.
    destruct (String.eqb_spec (con_type c) constraint_type) as [Hkind|_].
    + rewrite setattr_all_store; [|exact Hkeys|rewrite Hkind; exact Hhost]. simpl.
      rewrite insert_app_r_alt, Nat.sub_diag by lia. simpl.
      replace (done ++ store_fields c kwargs :: todo)
        with ((done ++ [store_fields c kwargs]) ++ todo)
        by (rewrite <- app_assoc; reflexivity).
      replace (S (length done)) with (length (done ++ [store_fields c kwargs]))
        by (rewrite length_app; simpl; lia).
      rewrite IH by lia. rewrite <- app_assoc. reflexivity.
    + replace (done ++ c :: todo) with ((done ++ [c]) ++ todo)
        by (rewrite <- app_assoc; reflexivity).
      replace (S (length done)) with (length (done ++ [c]))
        by (rewrite length_app; simpl; lia).
      rewrite IH by lia. rewrite <- app_assoc. reflexivity.
Qed.

Lemma store_fields_lookup (kwargs : Kwargs) (c : Constraint) :
  NoDup kwargs.*1 ->
  (forall key value, (key, value) ∈ kwargs ->
                     con_fields (store_fields c kwargs) !! key = Some value)
  /\ (forall key, key ∉ kwargs.*1 ->
                  con_fields (store_fields c kwargs) !! key = con_fields c !! key).
Proof.
  unfold store_fields. simpl. generalize (con_fields c). clear c.
  induction kwargs as [|[key value] kwargs IH]; intros fields Hnodup; simpl.
  - split; [|reflexivity]. intros key value Hin. apply elem_of_nil in Hin as [].
  - simpl in Hnodup. apply NoDup_cons in Hnodup as [Hfresh Hnodup].
    destruct (IH (<[key := value]> fields) Hnodup) as [Hset Hother]. split.
    + intros key' value' Hin. apply elem_of_cons in Hin as [[= -> ->]|Hin].
      * rewrite Hother by exact Hfresh. apply lookup_insert_eq.
      * apply Hset, Hin.
    + intros key' Hnot. apply not_elem_of_cons in Hnot as [Hne Hnot].
      rewrite Hother by exact Hnot. apply lookup_insert_ne. congruence.
Qed.

(** X8: [edit_constraints] with distinct keys other than [type] and
    [name], each of which the host stores as given on a constraint of
    the kind, succeeds; it keeps the stack's length and order and every
    constraint's kind, name and drivers; a constraint of another kind is
    left as it was, and a constraint of the kind holds every given value,
    its other fields as before. *)
Theorem edit_constraints_fields (pose_bone : PoseBone) (constraint_type : string)
    (kwargs : Kwargs) :
  NoDup kwargs.*1 ->
  Forall (fun key => key <> "type" /\ key <> "name") kwargs.*1 ->
  host_takes pose_bone constraint_type kwargs ->
  exists pose_bone',
    edit_constraints pose_bone constraint_type kwargs = Ok pose_bone'
    /\ mmd_bone_name_j pose_bone' = mmd_bone_name_j pose_bone
    /\ custom_properties pose_bone' = custom_properties pose_bone
    /\ length (constraints pose_bone') = length (constraints pose_bone)
    /\ forall i c,
        constraints pose_bone !! i = Some c ->
        exists c',
          constraints pose_bone' !! i = Some c'
          /\ con_type c' = con_type c
          /\ con_name c' = con_name c
          /\ con_drivers c' = con_drivers c
          /\ (con_type c <> constraint_type -> c' = c)
          /\ (con_type c = constraint_type ->
              (forall key value, (key, value) ∈ kwargs ->
                                 con_fields c' !! key = Some value)
              /\ (forall key, key ∉ kwargs.*1 ->
                              con_fields c' !! key = con_fields c !! key)).
Proof.
  intros Hnodup Hkeys Hhost. unfold edit_constraints.
  rewrite (edit_constraints_from_invariant pose_bone constraint_type kwargs
             (constraints pose_bone) [] _ Hkeys Hhost) by lia.
  simpl. eexists. split; [reflexivity|]. simpl.
  split; [reflexivity|]. split; [reflexivity|].
  split; [apply length_fmap|].
  intros i c Hi. rewrite list_lookup_fmap, Hi. simpl.
  eexists. split; [reflexivity|]. unfold edited.
  destruct (String.eqb_spec (con_type c) constraint_type) as [Hty|Hty]; simpl.
  - split; [reflexivity|]. split; [reflexivity|]. split; [reflexivity|].
    split; [intros Hne; contradiction|]. intros _.
    apply store_fields_lookup, Hnodup.
  - split; [reflexivity|]. split; [reflexivity|]. split; [reflexivity|].
    split; [reflexivity|]. intros Heq. contradiction.
Qed.

Lemma edit_constraints_from_none (owner : PoseBone) (constraint_type : string)
    (kwargs : Kwargs) (steps cursor : nat) (stack : list Constraint) :
  Forall (fun c => con_type c <> constraint_type) stack ->
  edit_constraints_from owner steps cursor stack constraint_type kwargs = Ok stack.
Proof.
  intros Hnone. revert cursor. induction steps as [|steps IH]; intros cursor; simpl;
    [reflexivity|].
  destruct (stack !! cursor) as [c|] eqn:Hc; [|reflexivity].
  rewrite Forall_lookup in Hnone. specialize (Hnone _ _ Hc).
  destruct (String.eqb_spec (con_type c) constraint_type); [contradiction|]. apply IH.
Qed.

(** X9: on a bone without a constraint of the kind, [edit_constraints]
    returns the bone as it is, whatever the keyword arguments, even ones
    that no constraint would accept. *)
Theorem edit_constraints_no_match (pose_bone : PoseBone) (constraint_type : string)
    (kwargs : Kwargs) :
  list_constraints pose_bone constraint_type = [] ->
  edit_constraints pose_bone constraint_type kwargs = Ok pose_bone.
Proof.
  intros Hnone. unfold edit_constraints.
  rewrite edit_constraints_from_none.
  - simpl. rewrite with_constraints_same. reflexivity.
  - apply Forall_lookup. intros i c Hi Hty.
    assert (i ∈ list_constraints pose_bone constraint_type) as Hin.
    { unfold list_constraints. apply list_constraints_from_spec; [lia|].
      split; [lia|eauto]. }
    rewrite Hnone in Hin. apply elem_of_nil in Hin as [].
Qed.

(** ** Control properties and standard names of a rig *)

(** X10: writing one control does not disturb another.  After a write
    that succeeds, a control whose data path differs in bone or property
    reads what it read before (an unregistered one still reads [None]),
    and a control registered under the same bone and property reads the
    value just written. *)
Theorem set_property_frame (self self' : RichArmatureObject)
    (control_type other : ControlType) (datapath : DataPath) (value : Value) :
  datapaths self !! control_type = Some datapath ->
  _set_property self control_type value = Ok self' ->
  match datapaths self !! other with
  | None => _get_property self' other = Ok VNone
  | Some datapath' =>
      if bool_decide (bone_name datapath' = bone_name datapath
                      /\ prop_name datapath' = prop_name datapath)
      then _get_property self' other = Ok value
      else _get_property self' other = _get_property self other
  end.
Proof.
  intros Hpath. unfold _set_property. rewrite Hpath.
  destruct (pose_bones self !! bone_name datapath) as [pose_bone|] eqn:Hbone;
    [|discriminate].
  destruct (property_error pose_bone (prop_name datapath) value); [discriminate|].
  intros [= <-]. unfold _get_property. simpl.
  destruct (datapaths self !! other) as [datapath'|]; [|reflexivity].
  case_bool_decide as Hsame.
  - destruct Hsame as [-> ->]. rewrite lookup_insert_eq. simpl.
    rewrite lookup_insert_eq. reflexivity.
  - destruct (decide (bone_name datapath' = bone_name datapath)) as [Hb|Hb].
    + rewrite Hb, lookup_insert_eq, Hbone. simpl.
      rewrite lookup_insert_ne; [reflexivity|]. intros Hp. apply Hsame. auto.
    + rewrite lookup_insert_ne by congruence. reflexivity.
Qed.

Lemma rich_armature_eq (a b : RichArmatureObject) :
  pose_bones a = pose_bones b -> datapaths a = datapaths b ->
  mmd_bind_infos a = mmd_bind_infos b -> a = b.
Proof. destruct a, b; simpl; intros -> -> ->; reflexivity. Qed.

(** X11: assigning the standard names twice with the same overrides is
    the same as assigning them once. *)
Theorem assign_mmd_bone_names_idempotent (self : RichArmatureObject)
    (overrides : option (list (string * string))) :
  assign_mmd_bone_names (assign_mmd_bone_names self overrides) overrides
  = assign_mmd_bone_names self overrides.
Proof.
  apply rich_armature_eq; [|reflexivity|reflexivity].
  apply map_eq. intros k. rewrite assign_mmd_bone_names_lookup.
  change (mmd_bind_infos (assign_mmd_bone_names self overrides))
    with (mmd_bind_infos self).
  rewrite assign_mmd_bone_names_lookup.
  set (mapping := mmd_bone_name2pose_bone_names (mmd_bind_infos self) overrides).
  destruct (pose_bones self !! k) as [b|]; simpl; [|reflexivity].
  f_equal. unfold with_name_j. simpl. f_equal.
  destruct (last_assigned mapping k) as [m|]; [reflexivity|].
  destruct (dict_contains (mmd_bone_name_j b) mapping) eqn:Hc.
  - destruct (dict_contains "" mapping); reflexivity.
  - rewrite Hc. reflexivity.
Qed.

Lemma mmd_bone_name_not_empty (e : MMDBoneInfo) : mmd_bone_name e <> "".
Proof. destruct e; discriminate. Qed.

(** X12: no catalog name is empty, so the empty tag, which marks a bone
    without a standard name, is a managed name only if an override
    introduces it.  When no override key is empty, every managed name
    sits on at most one bone after [assign_mmd_bone_names]. *)
Theorem assign_mmd_bone_names_without_empty_key (self : RichArmatureObject)
    (overrides : option (list (string * string))) :
  (forall o, overrides = Some o -> "" ∉ o.*1) ->
  let mapping := mmd_bone_name2pose_bone_names (mmd_bind_infos self) overrides in
  let self' := assign_mmd_bone_names self overrides in
  ("" ∉ dict_keys mapping)
  /\ (forall k1 k2 b1 b2,
        pose_bones self' !! k1 = Some b1 -> pose_bones self' !! k2 = Some b2 ->
        mmd_bone_name_j b1 = mmd_bone_name_j b2 ->
        mmd_bone_name_j b1 ∈ dict_keys mapping ->
        k1 = k2).
Proof.
  intros Hover mapping self'.
  assert ("" ∉ dict_keys mapping) as Hempty.
  { unfold mapping. rewrite mapping_keys. intros [(b & _ & Hb)|(o & Ho & Hin)].
    - exact (mmd_bone_name_not_empty _ Hb).
    - exact (Hover o Ho Hin). }
  split; [exact Hempty|].
  pose proof (mapping_NoDup (mmd_bind_infos self) overrides) as Hnodup.
  fold mapping in Hnodup. unfold dict_keys in Hnodup.
  assert (forall k b', pose_bones self' !! k = Some b' ->
                       mmd_bone_name_j b' ∈ dict_keys mapping ->
                       dict_get (mmd_bone_name_j b') mapping = Some (Some k)) as Howner.
  { intros k b' Hk Hin. unfold self' in Hk.
    rewrite assign_mmd_bone_names_lookup in Hk. fold mapping in Hk.
    destruct (pose_bones self !! k) as [b|]; simpl in Hk; [|discriminate].
    injection Hk as <-. simpl in *.
    destruct (last_assigned mapping k) as [m|] eqn:Hlast.
    - apply dict_get_elem; [exact Hnodup|]. apply last_assigned_elem, Hlast.
    - destruct (dict_contains (mmd_bone_name_j b) mapping) eqn:Hc; [contradiction|].
      apply dict_contains_keys in Hin. congruence. }
  intros k1 k2 b1 b2 H1 H2 Heq Hin.
  pose proof (Howner k1 b1 H1 Hin) as E1.
  rewrite Heq in Hin. pose proof (Howner k2 b2 H2 Hin) as E2.
  rewrite Heq in E1. congruence.
Qed.

(** ** [create_props] *)



(** ** [_add_eye_constraints] *)

Lemma author_inv (bones bones' : gmap string PoseBone) (name : string)
    (helper : PoseBone -> result (PoseBone * nat)) :
  author bones name helper = Ok bones' ->
  (bones !! name = None /\ bones' = bones)
  \/ exists pose_bone pose_bone' reference,
      bones !! name = Some pose_bone
      /\ helper pose_bone = Ok (pose_bone', reference)
      /\ bones' = <[name := pose_bone']> bones.
Proof.
  unfold author. destruct (bones !! name) as [pose_bone|].
  - destruct (helper pose_bone) as [[pose_bone' reference]|e] eqn:Hh; simpl;
      [|discriminate].
    intros [= <-]. right. exists pose_bone, pose_bone', reference. auto.
  - intros [= <-]. left. auto.
Qed.

Lemma eye_helper_authored (pose_bone : PoseBone) (raw_object : Object)
    (subtarget path : string) (additive : bool) :
  host_takes pose_bone "COPY_ROTATION" (eye_fields raw_object subtarget additive) ->
  authored pose_bone "COPY_ROTATION" "mmd_uuunyaa_copy_rotation"
    (eye_fields raw_object subtarget additive) raw_object path true
    (add_copy_rotation_constraint pose_bone raw_object subtarget "LOCAL" path true
       (if additive then [("mix_mode", VStr "ADD")] else [])).
Proof.
  intros Hhost. unfold add_copy_rotation_constraint, eye_fields in *.
  match goal with
  | |- authored _ _ _ (?explicit ++ ?kwargs) _ _ _ _ =>
      destruct (admissible_split explicit kwargs) as (H1 & H2 & H3)
  end.
  - simpl. repeat (apply NoDup_cons; split;
                   [rewrite ?elem_of_cons, elem_of_nil; intuition discriminate|]).
    apply NoDup_nil_2.
  - simpl. repeat (apply Forall_cons; split; [split; discriminate|]). apply Forall_nil_2.
  - destruct additive; (split; simpl).
    + apply NoDup_singleton.
    + apply Forall_cons. split; [|apply Forall_nil_2].
      rewrite !elem_of_cons, elem_of_nil. intuition discriminate.
    + apply NoDup_nil_2.
    + apply Forall_nil_2.
  - apply authored_by_helper; [reflexivity|reflexivity|assumption..].
Qed.

Lemma eye_helper_cleanup (pose_bone pose_bone' : PoseBone) (raw_object : Object)
    (subtarget path : string) (kwargs : Kwargs) (reference : nat) :
  add_copy_rotation_constraint pose_bone raw_object subtarget "LOCAL" path true kwargs
  = Ok (pose_bone', reference) ->
  with_constraints pose_bone' (List.filter user_authored (constraints pose_bone'))
  = with_constraints pose_bone (List.filter user_authored (constraints pose_bone)).
Proof.
  intros H.
  assert (Ok (pose_bone', reference)
            ∈ helper_calls pose_bone raw_object subtarget "LOCAL" path 0 0 true kwargs [])
    as Hin.
  { unfold helper_calls. rewrite <- H. apply elem_of_cons. right.
    apply elem_of_cons. left. reflexivity. }
  apply helper_calls_shape in Hin as (c & Hstack & _ & Htag & Hprops & Hc).
  unfold with_constraints. rewrite Hstack, Htag, Hprops, List.filter_app. simpl.
  unfold user_authored at 2. rewrite Hc. simpl. rewrite app_nil_r. reflexivity.
Qed.

Lemma author_cleanup (bones bones' : gmap string PoseBone) (name : string)
    (raw_object : Object) (subtarget path : string) (kwargs : Kwargs) :
  author bones name
    (fun bone => add_copy_rotation_constraint bone raw_object subtarget "LOCAL" path
                   true kwargs) = Ok bones' ->
  remove_constraints bones' = remove_constraints bones
  /\ (forall k, is_Some (bones' !! k) <-> is_Some (bones !! k)).
Proof.
  intros H.
  apply author_inv in H as [[_ ->]|(b & b' & reference & Hb & Hhelper & ->)];
    [split; reflexivity|].
  apply eye_helper_cleanup in Hhelper. split.
  - apply map_eq. intros k. rewrite !remove_constraints_lookup.
    destruct (decide (name = k)) as [->|Hne].
    + rewrite lookup_insert_eq, Hb. simpl. rewrite Hhelper. reflexivity.
    + rewrite lookup_insert_ne by exact Hne. reflexivity.
  - intros k. destruct (decide (name = k)) as [->|Hne].
    + rewrite lookup_insert_eq, Hb. split; eauto.
    + rewrite lookup_insert_ne by exact Hne. reflexivity.
Qed.

(** X14: [_add_eye_constraints] needs the registry.  When it has no
    entry for the eye control the call raises [KeyError], whatever the
    bones are: a missing entry is an error here, not a skip as it is for
    the accessors.  So a call that returns had the entry. *)
Theorem add_eye_constraints_returns (self : RichArmatureObject) (raw_object : Object)
    (target_eye_l_bone target_eye_r_bone : string)
    (control_eye_l_bone control_eye_r_bone control_eyes_bone : string) :
  let r := _add_eye_constraints self raw_object target_eye_l_bone target_eye_r_bone
             control_eye_l_bone control_eye_r_bone control_eyes_bone in
  (datapaths self !! EYE_MMD_UUUNYAA = None ->
   r = Raise (KeyError "ControlType.EYE_MMD_UUUNYAA")
   /\ _get_property self EYE_MMD_UUUNYAA = Ok VNone)
  /\ (forall self', r = Ok self' -> is_Some (datapaths self !! EYE_MMD_UUUNYAA)).
Proof.
  unfold _add_eye_constraints, _get_property.
  destruct (datapaths self !! EYE_MMD_UUUNYAA) as [eye|]; cbn zeta.
  - split; [discriminate|]. eauto.
  - split; [split; reflexivity|]. discriminate.
Qed.

(** X15: what [_add_eye_constraints] authors is cleaned up again by
    [remove_constraints]: cleaning up the rig it returns gives what
    cleaning up the rig it was given gives, whether the five bones are
    distinct or not; the registry, the bind infos and the set of bones
    stay as they were. *)
Theorem add_eye_constraints_then_remove (self self' : RichArmatureObject)
    (raw_object : Object) (target_eye_l_bone target_eye_r_bone : string)
    (control_eye_l_bone control_eye_r_bone control_eyes_bone : string) :
  _add_eye_constraints self raw_object target_eye_l_bone target_eye_r_bone
    control_eye_l_bone control_eye_r_bone control_eyes_bone = Ok self' ->
  remove_constraints (pose_bones self') = remove_constraints (pose_bones self)
  /\ datapaths self' = datapaths self
  /\ mmd_bind_infos self' = mmd_bind_infos self
  /\ (forall k, is_Some (pose_bones self' !! k) <-> is_Some (pose_bones self !! k)).
Proof.
  unfold _add_eye_constraints. intros H.
  destruct (datapaths self !! EYE_MMD_UUUNYAA) as [eye|]; [|discriminate].
  destruct (author (pose_bones self) target_eye_l_bone _) as [bones1|] eqn:H1;
    simpl in H; [|discriminate].
  destruct (author bones1 target_eye_r_bone _) as [bones2|] eqn:H2;
    simpl in H; [|discriminate].
  destruct (author bones2 control_eye_l_bone _) as [bones3|] eqn:H3;
    simpl in H; [|discriminate].
  destruct (author bones3 control_eye_r_bone _) as [bones4|] eqn:H4;
    simpl in H; [|discriminate].
  injection H as <-. simpl.
  apply author_cleanup in H1 as [R1 D1]. apply author_cleanup in H2 as [R2 D2].
  apply author_cleanup in H3 as [R3 D3]. apply author_cleanup in H4 as [R4 D4].
  split; [congruence|]. split; [reflexivity|]. split; [reflexivity|].
  intros k. rewrite D4, D3, D2, D1. reflexivity.
Qed.

Lemma author_step (bones : gmap string PoseBone) (name : string) (pose_bone : PoseBone)
    (raw_object : Object) (subtarget path : string) (additive : bool) :
  bones !! name = Some pose_bone ->
  host_takes pose_bone "COPY_ROTATION" (eye_fields raw_object subtarget additive) ->
  exists c,
    author bones name
      (fun bone => add_copy_rotation_constraint bone raw_object subtarget "LOCAL" path
                     true (if additive then [("mix_mode", VStr "ADD")] else []))
    = Ok (<[name := with_constraints pose_bone (constraints pose_bone ++ [c])]> bones)
    /\ eye_constraint (constraints pose_bone) raw_object subtarget path additive c.
Proof.
  intros Hb Hhost. unfold author. rewrite Hb.
  destruct (eye_helper_authored pose_bone raw_object subtarget path additive Hhost)
    as (b' & reference & c & -> & Hstack & Htag & Hprops & _ & Ht & Hn & Hset & Hnot & Hd).
  exists c. simpl. split.
  - do 2 f_equal. destruct b'. unfold with_constraints. simpl in *. congruence.
  - unfold eye_constraint. unfold eye_fields in Hset, Hnot.
    split; [exact Ht|]. split; [exact Hn|].
    split; [apply Hset; rewrite !elem_of_app, !elem_of_cons; tauto|].
    split; [apply Hset; rewrite !elem_of_app, !elem_of_cons; tauto|].
    split; [apply Hset; rewrite !elem_of_app, !elem_of_cons; tauto|].
    split; [apply Hset; rewrite !elem_of_app, !elem_of_cons; tauto|].
    split; [|exact Hd].
    destruct additive.
    + apply Hset. rewrite !elem_of_app, !elem_of_cons. tauto.
    + apply Hnot. simpl. rewrite !elem_of_cons, elem_of_nil. intuition discriminate.
Qed.

(** X16: on a rig whose registry resolves the eye control, with the
    five bones distinct and a host that stores what is assigned as it is
    given, [_add_eye_constraints] appends exactly one
    constraint to each of the four eye bones and leaves every other bone
    alone.  Each is a ['COPY_ROTATION'] in local space targeting the
    rig's object, named ['mmd_uuunyaa_copy_rotation'] (with the host's
    suffix when the bone had a constraint of that name) and driven
    inverted by the eye control's data path: the target eye bones copy
    their control eye bone, the control eye bones copy the shared eyes
    bone additively. *)
Theorem add_eye_constraints_authors (self : RichArmatureObject) (raw_object : Object)
    (eye : DataPath)
    (target_eye_l_bone target_eye_r_bone : string)
    (control_eye_l_bone control_eye_r_bone control_eyes_bone : string)
    (target_l target_r control_l control_r : PoseBone) :
  datapaths self !! EYE_MMD_UUUNYAA = Some eye ->
  NoDup [target_eye_l_bone; target_eye_r_bone; control_eye_l_bone; control_eye_r_bone;
         control_eyes_bone] ->
  pose_bones self !! target_eye_l_bone = Some target_l ->
  pose_bones self !! target_eye_r_bone = Some target_r ->
  pose_bones self !! control_eye_l_bone = Some control_l ->
  pose_bones self !! control_eye_r_bone = Some control_r ->
  host_takes target_l "COPY_ROTATION" (eye_fields raw_object control_eye_l_bone false) ->
  host_takes target_r "COPY_ROTATION" (eye_fields raw_object control_eye_r_bone false) ->
  host_takes control_l "COPY_ROTATION" (eye_fields raw_object control_eyes_bone true) ->
  host_takes control_r "COPY_ROTATION" (eye_fields raw_object control_eyes_bone true) ->
  let path := "pose.bones" +:+ data_path eye in
  exists self' c1 c2 c3 c4,
    _add_eye_constraints self raw_object target_eye_l_bone target_eye_r_bone
      control_eye_l_bone control_eye_r_bone control_eyes_bone = Ok self'
    /\ pose_bones self' !! target_eye_l_bone
       = Some (with_constraints target_l (constraints target_l ++ [c1]))
    /\ eye_constraint (constraints target_l) raw_object control_eye_l_bone path false c1
    /\ pose_bones self' !! target_eye_r_bone
       = Some (with_constraints target_r (constraints target_r ++ [c2]))
    /\ eye_constraint (constraints target_r) raw_object control_eye_r_bone path false c2
    /\ pose_bones self' !! control_eye_l_bone
       = Some (with_constraints control_l (constraints control_l ++ [c3]))
    /\ eye_constraint (constraints control_l) raw_object control_eyes_bone path true c3
    /\ pose_bones self' !! control_eye_r_bone
       = Some (with_constraints control_r (constraints control_r ++ [c4]))
    /\ eye_constraint (constraints control_r) raw_object control_eyes_bone path true c4
    /\ (forall k,
          k ∉ [target_eye_l_bone; target_eye_r_bone;
               control_eye_l_bone; control_eye_r_bone] ->
          pose_bones self' !! k = pose_bones self !! k).
Proof.
  intros Heye Hnodup Hb1 Hb2 Hb3 Hb4 Hh1 Hh2 Hh3 Hh4 path.
  apply NoDup_cons in Hnodup as [N1 Hnodup]. apply NoDup_cons in Hnodup as [N2 Hnodup].
  apply NoDup_cons in Hnodup as [N3 _].
  repeat rewrite not_elem_of_cons in N1. repeat rewrite not_elem_of_cons in N2.
  repeat rewrite not_elem_of_cons in N3.
  destruct N1 as (N12 & N13 & N14 & _). destruct N2 as (N23 & N24 & _).
  destruct N3 as (N34 & _).
  unfold _add_eye_constraints. rewrite Heye. fold path.
  destruct (author_step (pose_bones self) target_eye_l_bone target_l raw_object
              control_eye_l_bone path false Hb1 Hh1) as (c1 & E1' & E1).
  cbn [negb] in E1'. rewrite E1'. clear E1'.
  cbn [mbind result_bind].
  match goal with |- context [author ?bones target_eye_r_bone] =>
    destruct (author_step bones target_eye_r_bone target_r raw_object
                control_eye_r_bone path false) as (c2 & E2' & E2);
      [rewrite lookup_insert_ne by congruence; exact Hb2|exact Hh2|] end.
  cbn [negb] in E2'. rewrite E2'. clear E2'.
  cbn [mbind result_bind].
  match goal with |- context [author ?bones control_eye_l_bone] =>
    destruct (author_step bones control_eye_l_bone control_l raw_object
                control_eyes_bone path true) as (c3 & E3' & E3);
      [rewrite !lookup_insert_ne by congruence; exact Hb3|exact Hh3|] end.
  rewrite E3'. clear E3'.
  cbn [mbind result_bind].
  match goal with |- context [author ?bones control_eye_r_bone] =>
    destruct (author_step bones control_eye_r_bone control_r raw_object
                control_eyes_bone path true) as (c4 & E4' & E4);
      [rewrite !lookup_insert_ne by congruence; exact Hb4|exact Hh4|] end.
  rewrite E4'. clear E4'.
  cbn [mbind result_bind].
  eexists _, c1, c2, c3, c4. split; [reflexivity|]. cbn [pose_bones with_pose_bones].
  split; [rewrite !lookup_insert_ne by congruence; apply lookup_insert_eq|].
  split; [exact E1|].
  split; [rewrite !lookup_insert_ne by congruence; apply lookup_insert_eq|].
  split; [exact E2|].
  split; [rewrite !lookup_insert_ne by congruence; apply lookup_insert_eq|].
  split; [exact E3|].
  split; [apply lookup_insert_eq|].
  split; [exact E4|].
  intros k Hk. repeat rewrite not_elem_of_cons in Hk. destruct Hk as (K1 & K2 & K3 & K4 & _).
  rewrite !lookup_insert_ne by congruence. reflexivity.
Qed.

End MoreProperties.

(** ** Data paths *)

Lemma string_app_assoc (a b c : string) : (a +:+ b) +:+ c = a +:+ (b +:+ c).
Proof.
  induction a as [|x a IH]; [reflexivity|].
  change (String x ((a +:+ b) +:+ c) = String x (a +:+ (b +:+ c))).
  rewrite IH. reflexivity.
Qed.

Lemma string_length_app (a b : string) :
  String.length (a +:+ b) = String.length a + String.length b.
Proof.
  induction a as [|x a IH]; [reflexivity|].
  change (S (String.length (a +:+ b)) = S (String.length a + String.length b)).
  rewrite IH. reflexivity.
Qed.

Lemma string_app_inv_tail (a b s : string) : a +:+ s = b +:+ s -> a = b.
Proof.
  revert b. induction a as [|x a IH]; intros [|y b] H.
  - reflexivity.
  - exfalso. apply (f_equal String.length) in H.
    rewrite !string_length_app in H. simpl in H. lia.
  - exfalso. apply (f_equal String.length) in H.
    rewrite !string_length_app in H. simpl in H. lia.
  - change (String x (a +:+ s) = String y (b +:+ s)) in H.
    injection H as -> H. rewrite (IH b H). reflexivity.
Qed.

Lemma quote_splits (a b r1 r2 : string) :
  no_quote a = true -> no_quote b = true ->
  a +:+ String "034" r1 = b +:+ String "034" r2 -> a = b /\ r1 = r2.
Proof.
  revert b. induction a as [|x a IH]; intros [|y b] Ha Hb H.
  - change (String "034" r1 = String "034" r2) in H. injection H as ->. auto.
  - change (String "034" r1 = String y (b +:+ String "034" r2)) in H.
    injection H as <- _. discriminate Hb.
  - change (String x (a +:+ String "034" r1) = String "034" r2) in H.
    injection H as -> _. discriminate Ha.
  - change (String x (a +:+ String "034" r1) = String y (b +:+ String "034" r2)) in H.
    injection H as -> H. simpl in Ha, Hb.
    apply andb_prop in Ha as [_ Ha]. apply andb_prop in Hb as [_ Hb].
    destruct (IH b Ha Hb H) as [-> ->]. auto.
Qed.

(** X17: for bone names without a double quote, the data path written
    into driver variables tells the bone and the property apart: two data
    paths with the same text have the same bone name and the same property
    name. *)
Theorem data_path_injective (d1 d2 : DataPath) :
  no_quote (bone_name d1) = true -> no_quote (bone_name d2) = true ->
  data_path d1 = data_path d2 -> d1 = d2.
Proof.
  intros H1 H2. unfold data_path, bone_data_path, prop_data_path, dquote.
  simpl. rewrite !string_app_assoc. simpl. intros [= H].
  apply quote_splits in H as [Hb H]; [|assumption|assumption].
  injection H as H.
  change (prop_name d1 +:+ String "034" "]" = prop_name d2 +:+ String "034" "]") in H.
  apply string_app_inv_tail in H.
  destruct d1, d2. simpl in *. congruence.
Qed.

(** ** Edit bones *)

(** X18: for a name that fits in the host's 63 bytes,
    [get_or_create_bone] hands out the bone stored under the name,
    creating it only when the name is free: afterwards the name resolves
    to the bone returned, every other name resolves as before, a bone that
    was there is neither replaced nor changed, and asking again returns
    the same bone without changing the collection. *)
Theorem get_or_create_bone_keeps {float : Type}
    (edit_bones_new : string -> EditBone float)
    (edit_bones_name : gmap string (EditBone float) -> string -> string)
    (edit_bones : gmap string (EditBone float)) (bone_name : string) :
  fits bone_name = true ->
  let r := get_or_create_bone edit_bones_new edit_bones_name edit_bones bone_name in
  r.1 !! bone_name = Some r.2
  /\ (forall k, k <> bone_name -> r.1 !! k = edit_bones !! k)
  /\ (forall bone, edit_bones !! bone_name = Some bone -> r = (edit_bones, bone))
  /\ (edit_bones !! bone_name = None ->
      r = (<[bone_name := edit_bones_new bone_name]> edit_bones,
           edit_bones_new bone_name))
  /\ get_or_create_bone edit_bones_new edit_bones_name r.1 bone_name = r.
Proof.
  intros Hfits. unfold get_or_create_bone. rewrite Hfits.
  destruct (edit_bones !! bone_name) as [bone|] eqn:Hb; cbn [fst snd].
  - rewrite Hb. split; [reflexivity|]. split; [reflexivity|].
    split; [intros bone' [= ->]; reflexivity|]. split; [discriminate|reflexivity].
  - rewrite lookup_insert_eq. split; [reflexivity|].
    split; [intros k Hk; apply lookup_insert_ne; congruence|].
    split; [discriminate|]. split; reflexivity.
Qed.

(** ** Points on a bone *)

(** X19: the midpoint does not depend on the order of its two points,
    given that the addition of the host's numbers is commutative. *)
Theorem to_center_symmetric {float : Type}
    (float_add float_div : float -> float -> float) (two : float)
    (left right : Vector float) :
  (forall a b, float_add a b = float_add b a) ->
  to_center float_add float_div two left right
  = to_center float_add float_div two right left.
Proof.
  intros Hcomm. unfold to_center, vector_add, vector_div. simpl.
  rewrite (Hcomm (x left)), (Hcomm (y left)), (Hcomm (z left)). reflexivity.
Qed.

(** ** The bone catalog, right to left *)

Lemma mirrored_back_all : forallb mirrored_back MMDBoneInfo_members = true.
Proof. vm_compute. reflexivity. Qed.

(** X21: every catalog entry whose name starts with the right marker has
    an entry whose name is the same with the left marker in its place and
    whose role is the same, and no entry is both a left and a right
    one. *)
Theorem catalog_symmetric_back :
  (forall (right : MMDBoneInfo) (rest : string),
      mmd_bone_name right = right_marker +:+ rest ->
      exists left : MMDBoneInfo,
        mmd_bone_name left = left_marker +:+ rest
        /\ bone_type left = bone_type right)
  /\ (forall (e : MMDBoneInfo) (rest rest' : string),
        mmd_bone_name e = left_marker +:+ rest ->
        mmd_bone_name e <> right_marker +:+ rest').
Proof.
  split.
  - intros right rest Hright.
    pose proof mirrored_back_all as Hall. rewrite forallb_forall in Hall.
    specialize (Hall right (proj1 (list_elem_of_In _ _) (MMDBoneInfo_members_complete right))).
    unfold mirrored_back in Hall.
    apply strip_prefix_spec in Hright. rewrite Hright in Hall.
    apply existsb_exists in Hall as (left & _ & Hleft).
    apply andb_prop in Hleft as [Hname Hrole].
    apply String.eqb_eq in Hname. apply bool_decide_eq_true in Hrole.
    exists left. split; assumption.
  - intros e rest rest' -> H. discriminate H.
Qed.

(** ** Worked instances *)

Example remove_constraints_example :
  constraints <$> remove_constraints (pose_bones example_rig) !! "hand.L"
  = Some [example_user_constraint].
Proof. vm_compute. reflexivity. Qed.

(** The host iterator matters: a positional iterator over the same stack
    would step over the constraint that follows each removal. *)
Example remove_by_position_example :
  remove_prefixed 4 0 (constraints example_hand) = [example_user_constraint]
  /\ remove_prefixed_by_position 4 0 (constraints example_hand)
     = [example_engine_constraint; example_user_constraint].
Proof. split; vm_compute; reflexivity. Qed.

Example assign_mmd_bone_names_example :
  mmd_bone_name_j
    <$> pose_bones (assign_mmd_bone_names example_rig (Some [("首", "torso")])) !! "torso"
  = Some "首"
  /\ mmd_bone_name_j
       <$> pose_bones (assign_mmd_bone_names example_rig None) !! "torso"
     = Some "".
Proof. split; vm_compute; reflexivity. Qed.

(** On a bone that holds a constraint of the helper's name already, the
    host numbers the new one. *)
Example add_constraint_renames_example :
  con_name
    <$> returned_constraint
          (add_copy_rotation_constraint example_torso example_object "eyes" "LOCAL"
             "pose.bones" true [])
  = Some "mmd_uuunyaa_copy_rotation"
  /\ con_name
       <$> returned_constraint
             (add_copy_rotation_constraint example_hand example_object "eyes" "LOCAL"
                "pose.bones" true [])
     = Some "mmd_uuunyaa_copy_rotation.001".
Proof. split; vm_compute; reflexivity. Qed.

(** The example host clamps the chain length, and refuses an integer
    that is no C [int] and an attribute the kind does not have. *)
Example add_ik_constraint_clamps_example :
  returned_constraint
    (add_ik_constraint example_torso example_object "hand_ik.L" "pose.bones"
       300 10 false [])
    ≫= (fun c => con_fields c !! "chain_count")
  = Some (VInt 255)
  /\ add_ik_constraint example_torso example_object "hand_ik.L" "pose.bones"
       (2 ^ 31) 10 false []
     = Raise (ValueError "chain_count")
  /\ add_copy_scale_constraint example_torso example_object "eyes" "LOCAL"
       "pose.bones" false [("mix_mode", VStr "ADD")]
     = Raise (AttributeError "mix_mode").
Proof. repeat split; vm_compute; reflexivity. Qed.

Lemma example_host_takes (owner : @PoseBone Q) (kind : string) (fields : @Kwargs Q) :
  forallb (example_stores kind) fields = true -> host_takes owner kind fields.
Proof.
  intros Hall c key value Hkind Hin. rewrite forallb_forall in Hall.
  specialize (Hall (key, value) (proj1 (list_elem_of_In _ _) Hin)).
  unfold example_stores in Hall. cbn [fst snd] in Hall.
  apply andb_prop in Hall as [Hattr Hvalue].
  cbn [assign_field example_host]. unfold example_assign_field.
  rewrite Hkind, Hattr. cbn [negb].
  destruct value; try reflexivity.
  apply andb_prop in Hvalue as [Hrange Hclamp]. rewrite Hrange. cbn [negb].
  apply Z.eqb_eq in Hclamp. rewrite Hclamp. reflexivity.
Qed.




Lemma unregistered_control_skips_witness :
  _get_property example_rig LEG_L_IK_FK = Ok VNone
  /\ forall value, _set_property example_rig LEG_L_IK_FK value = Ok example_rig.
Proof.
  refine (let H := unregistered_control_skips example_rig LEG_L_IK_FK _ in
          conj (proj1 H) (proj1 (proj2 H))).
  vm_compute. reflexivity.
Defined.

Lemma set_then_get_property_witness :
  exists self',
    _set_property example_rig ARM_L_IK_FK (VFloat 1%Q) = Ok self'
    /\ _get_property self' ARM_L_IK_FK = Ok (VFloat 1%Q)
    /\ (forall a, accessor_control a = ARM_L_IK_FK ->
                  setter a example_rig (VFloat 1%Q) = Ok self'
                  /\ getter a self' = Ok (VFloat 1%Q)).
Proof.
  refine (set_then_get_property example_rig ARM_L_IK_FK example_datapath example_torso
            (VFloat 1%Q) _ _).
  - vm_compute. reflexivity.
  - vm_compute. reflexivity.
Defined.

(** C7 as stated fails for a value the host refuses: with the control
    registered and its owner bone in the rig, writing the integer [2^31]
    through the setter raises [OverflowError]; nothing is stored, and the
    getter still finds no property.  Likewise a truth value written to
    the number that [create_props] made is refused with [TypeError], and
    the control keeps reading the number. *)
Lemma set_property_refused_by_host :
  datapaths example_rig !! ARM_L_IK_FK = Some example_datapath
  /\ pose_bones example_rig !! "torso" = Some example_torso
  /\ (exists message,
        setter arm_l_ik_fk example_rig (VInt (2 ^ 31)) = Raise (OverflowError message))
  /\ getter arm_l_ik_fk example_rig = Raise (KeyError "IK_FK")
  /\ _get_property example_eye_rig_props EYE_MMD_UUUNYAA = Ok (VFloat 0%Q)
  /\ (exists message,
        _set_property example_eye_rig_props EYE_MMD_UUUNYAA (VBool true)
        = Raise (TypeError message)).
Proof.
  split; [vm_compute; reflexivity|]. split; [vm_compute; reflexivity|].
  split; [eexists; vm_compute; reflexivity|]. split; [vm_compute; reflexivity|].
  split; [vm_compute; reflexivity|]. eexists. vm_compute. reflexivity.
Qed.

Lemma registered_control_lookup_witness :
  _get_property example_rig ARM_R_IK_FK = Raise (KeyError "missing")
  /\ forall value, _set_property example_rig ARM_R_IK_FK value = Raise (KeyError "missing").
Proof.
  refine (proj1 (registered_control_lookup example_rig ARM_R_IK_FK
                   {| bone_name := "missing"; prop_name := "IK_FK" |} _) _).
  - vm_compute. reflexivity.
  - vm_compute. reflexivity.
Defined.

(** C10 as stated fails for the setter: with the owner bone in the rig
    and the property absent on it, reading raises [KeyError] but writing
    succeeds and stores the property. *)
Lemma set_property_creates_missing_property :
  datapaths example_rig !! ARM_L_IK_FK = Some example_datapath
  /\ pose_bones example_rig !! "torso" = Some example_torso
  /\ custom_properties example_torso !! "IK_FK" = None
  /\ _get_property example_rig ARM_L_IK_FK = Raise (KeyError "IK_FK")
  /\ exists self',
      _set_property example_rig ARM_L_IK_FK (VFloat 1%Q) = Ok self'
      /\ _get_property self' ARM_L_IK_FK = Ok (VFloat 1%Q).
Proof.
  repeat split; try (vm_compute; reflexivity).
  eexists. split; vm_compute; reflexivity.
Qed.

(** C8 as stated fails for the empty name: when an override introduces
    it, it is a managed name, and after the call it sits on every bone
    that has no standard name, here on both eye bones. *)
Lemma assign_mmd_bone_names_empty_name :
  let overrides := Some [("", "eye.L")] in
  let self' := assign_mmd_bone_names example_eye_rig overrides in
  "" ∈ dict_keys (mmd_bone_name2pose_bone_names (mmd_bind_infos example_eye_rig) overrides)
  /\ mmd_bone_name_j <$> pose_bones self' !! "eye.L" = Some ""
  /\ mmd_bone_name_j <$> pose_bones self' !! "eye.R" = Some "".
Proof.
  split; [apply elem_of_cons; left; reflexivity|].
  split; vm_compute; reflexivity.
Qed.

(** ** Worked instances of the further properties *)

Lemma helper_then_remove_constraints_witness :
  remove_constraints (<["torso" := example_authored.1]> (pose_bones example_rig))
  = remove_constraints (<["torso" := example_torso]> (pose_bones example_rig)).
Proof.
  apply (helper_then_remove_constraints (pose_bones example_rig) "torso"
           example_torso example_authored.1 example_object "eyes" "LOCAL" "pose.bones"
           2 10 true [] [] example_authored.2).
  apply elem_of_cons. right. apply elem_of_cons. left. vm_compute. reflexivity.
Defined.

Lemma helpers_stack_in_order_witness :
  exists c1 c2,
    constraints example_stacked.1 = constraints example_torso ++ [c1; c2]
    /\ example_authored.2 = length (constraints example_torso)
    /\ example_stacked.2 = S example_authored.2
    /\ constraints example_authored.1 !! example_authored.2 = Some c1
    /\ constraints example_stacked.1 !! example_authored.2 = Some c1
    /\ constraints example_stacked.1 !! example_stacked.2 = Some c2.
Proof.
  apply (helpers_stack_in_order example_torso example_authored.1 example_stacked.1
           example_object example_object "eyes" "LOCAL" "pose.bones"
           "hand_ik.L" "LOCAL" "pose.bones" 2 10 2 10 true false [] [] [] []).
  - apply elem_of_cons. right. apply elem_of_cons. left. vm_compute. reflexivity.
  - do 4 (apply elem_of_cons; right). apply elem_of_cons. left. vm_compute. reflexivity.
Defined.

Lemma helper_keyword_collision_witness :
  exists key',
    add_copy_scale_constraint example_torso example_object "eyes" "LOCAL" "pose.bones"
      false [("mix_mode", VStr "ADD"); ("target", VStr "other")]
    = Raise (TypeError key')
    /\ key' ∈ [("mix_mode", VStr (float:=Q) "ADD"); ("target", VStr "other")].*1
              ++ [("iterations", VInt (float:=Q) 3)].*1.
Proof.
  apply (helper_keyword_collision example_torso example_object "eyes" "LOCAL"
           "pose.bones" 2 10 false
           [("mix_mode", VStr "ADD"); ("target", VStr "other")]
           [("iterations", VInt 3)] "target" "iterations").
  - simpl. apply elem_of_cons. right. apply elem_of_cons. left. reflexivity.
  - do 3 (apply elem_of_cons; right). apply elem_of_cons. left. reflexivity.
  - simpl. apply elem_of_cons. left. reflexivity.
  - do 6 (apply elem_of_cons; right). apply elem_of_cons. left. reflexivity.
  - do 3 (apply elem_of_cons; right). apply elem_of_cons. left. reflexivity.
Defined.

Lemma add_influence_driver_stacks_witness :
  exists d,
    drivers_of "influence"
      (add_influence_driver
         (add_influence_driver example_user_constraint example_object "a" false)
         example_object "b" true)
    = [d]
    /\ variables d
       = [ {| variable_name := "mmd_uuunyaa_influence";
              variable_target := example_object; variable_data_path := "a" |};
           {| variable_name := "mmd_uuunyaa_influence_001";
              variable_target := example_object; variable_data_path := "b" |} ]
    /\ expression d = "1-mmd_uuunyaa_influence"
    /\ driver_value 1%Q Qminus
         (fun _ path => if String.eqb path "a" then Some (1 # 4)%Q else Some (3 # 4)%Q) d
       = Some (1 - (1 # 4))%Q.
Proof.
  destruct (add_influence_driver_stacks 1%Q Qminus
              (fun _ path => if String.eqb path "a" then Some (1 # 4)%Q else Some (3 # 4)%Q)
              example_user_constraint
              (example_object, "a", false) [(example_object, "b", true)])
    as (d & rest & Hd & Hvars & _ & _ & _ & Hexpr & Hvalue).
  - reflexivity.
  - exists d. split; [exact Hd|]. split; [exact Hvars|]. split; [exact Hexpr|exact Hvalue].
Defined.

Lemma edit_constraints_fields_witness :
  exists pose_bone',
    edit_constraints example_hand "COPY_ROTATION" [("mix_mode", VStr "ADD")]
    = Ok pose_bone'
    /\ length (constraints pose_bone') = length (constraints example_hand).
Proof.
  destruct (edit_constraints_fields example_hand "COPY_ROTATION"
              [("mix_mode", VStr "ADD")])
    as (pose_bone' & Hedit & _ & _ & Hlen & _).
  - apply NoDup_singleton.
  - apply Forall_cons. split; [split; discriminate|apply Forall_nil_2].
  - apply example_host_takes. reflexivity.
  - exists pose_bone'. split; [exact Hedit|exact Hlen].
Defined.

Lemma edit_constraints_no_match_witness :
  edit_constraints example_hand "IK" [("type", VStr "COPY_SCALE")] = Ok example_hand.
Proof.
  apply (edit_constraints_no_match example_hand "IK" [("type", VStr "COPY_SCALE")]).
  vm_compute. reflexivity.
Defined.

Lemma set_property_frame_witness :
  _get_property example_rig_set ARM_R_IK_FK = _get_property example_rig ARM_R_IK_FK.
Proof.
  refine (set_property_frame example_rig example_rig_set ARM_L_IK_FK ARM_R_IK_FK
            example_datapath (VFloat 1%Q) _ _).
  - vm_compute. reflexivity.
  - vm_compute. reflexivity.
Defined.

Lemma assign_mmd_bone_names_without_empty_key_witness :
  "" ∉ dict_keys (mmd_bone_name2pose_bone_names (mmd_bind_infos example_rig)
                    (Some [("首", "torso")])).
Proof.
  refine (proj1 (assign_mmd_bone_names_without_empty_key example_rig
                   (Some [("首", "torso")]) _)).
  intros o [= <-]. simpl. intros H. apply elem_of_cons in H as [H|H]; [discriminate H|].
  apply elem_of_nil in H. exact H.
Defined.

Lemma add_eye_constraints_then_remove_witness :
  remove_constraints (pose_bones example_eye_rig_bound)
  = remove_constraints (pose_bones example_eye_rig).
Proof.
  refine (proj1 (add_eye_constraints_then_remove example_eye_rig example_eye_rig_bound
                   example_object "eye.L" "eye.R" "c_eye.L" "c_eye.R" "c_eyes" _)).
  vm_compute. reflexivity.
Defined.

Lemma add_eye_constraints_authors_witness :
  exists self' c1,
    _add_eye_constraints example_eye_rig example_object
      "eye.L" "eye.R" "c_eye.L" "c_eye.R" "c_eyes" = Ok self'
    /\ pose_bones self' !! "eye.L"
       = Some (with_constraints example_eye_bone (constraints example_eye_bone ++ [c1]))
    /\ eye_constraint (constraints example_eye_bone) example_object "c_eye.L"
         ("pose.bones" +:+ data_path {| bone_name := "torso";
                                        prop_name := "eye_mmd_uuunyaa" |})
         false c1.
Proof.
  destruct (add_eye_constraints_authors example_eye_rig example_object
              {| bone_name := "torso"; prop_name := "eye_mmd_uuunyaa" |}
              "eye.L" "eye.R" "c_eye.L" "c_eye.R" "c_eyes"
              example_eye_bone example_eye_bone example_eye_bone example_eye_bone)
    as (self' & c1 & _ & _ & _ & H & H1 & E1 & _).
  - vm_compute. reflexivity.
  - repeat (apply NoDup_cons; split;
            [rewrite ?elem_of_cons, elem_of_nil; intuition discriminate|]).
    apply NoDup_nil_2.
  - vm_compute. reflexivity.
  - vm_compute. reflexivity.
  - vm_compute. reflexivity.
  - vm_compute. reflexivity.
  - apply example_host_takes. reflexivity.
  - apply example_host_takes. reflexivity.
  - apply example_host_takes. reflexivity.
  - apply example_host_takes. reflexivity.
  - exists self', c1. split; [exact H|]. split; [exact H1|exact E1].
Defined.

Lemma data_path_injective_witness :
  {| bone_name := "torso"; prop_name := "IK_FK" |} = example_datapath.
Proof.
  apply (data_path_injective {| bone_name := "torso"; prop_name := "IK_FK" |}
           example_datapath); reflexivity.
Defined.

Lemma get_or_create_bone_keeps_witness :
  let edit_bones_new := fun _ : string =>
    {| bone_head := Build_Vector 0%Q 0%Q 0%Q; bone_tail := Build_Vector 0%Q 1%Q 0%Q |} in
  let r := get_or_create_bone edit_bones_new (fun _ name => String.substring 0 63 name)
             ∅ "mmd_uuunyaa_eyes" in
  r.1 !! "mmd_uuunyaa_eyes" = Some r.2.
Proof.
  intros edit_bones_new.
  refine (proj1 (get_or_create_bone_keeps edit_bones_new
                   (fun _ name => String.substring 0 63 name) ∅ "mmd_uuunyaa_eyes" _)).
  reflexivity.
Defined.

Lemma to_center_symmetric_witness :
  to_center Rplus Rdiv 2%R (Build_Vector 1 0 1)%R (Build_Vector 0 2 0)%R
  = to_center Rplus Rdiv 2%R (Build_Vector 0 2 0)%R (Build_Vector 1 0 1)%R.
Proof.
  apply (to_center_symmetric Rplus Rdiv 2%R (Build_Vector 1 0 1)%R (Build_Vector 0 2 0)%R).
  exact Rplus_comm.
Defined.
